(** * PandABlocks-ioc: name types, record helpers and the table codec

    A shallow embedding of [src/pandablocks_ioc/_types.py] together with
    a model of the packed bit-table codec, and the properties of both.

    Conventions.
    - Python [str] values are [string]s, a character each; the character
      classes and case mappings ([\w], [str.isdigit], [str.capitalize],
      [str.upper]) are those of ASCII, as the device's names are, and a
      property that depends on them is stated for ASCII names
      ([PyStr.isascii]).
    - A raised exception is the [Raise] case of [result]; the exception
      classes of the source are the constructors of [exn].
    - The three validators end in [cls.name = ...] and have no
      [return]: [Ok name] for a validator says that the call ran to its
      end having assigned [name] to [cls.name]; the value the call
      evaluates to is [None] ([returned_value]), and that is what
      pydantic takes for the field ([construct]).
    - [logging] calls append to a list of log records that the function
      returns next to its value. *)

From Stdlib Require Import String Ascii List ZArith Lia Bool Arith.
From Stdlib Require Import DecimalString.
Import ListNotations.

Open Scope list_scope.
Open Scope string_scope.

(** ** Exceptions and results *)

Inductive exn : Type :=
| NotImplementedError
| ValueError (msg : string)
| IndexError (msg : string)
| AssertionError (msg : string)
| TypeError (msg : string)
| ValidationError (msg : string).

Inductive result (A : Type) : Type :=
| Ok (a : A)
| Raise (e : exn).

Arguments Ok {A} a.
Arguments Raise {A} e.

Definition bind {A B : Type} (r : result A) (k : A -> result B) : result B :=
  match r with
  | Ok a => k a
  | Raise e => Raise e
  end.

Notation "x <- r ;; k" := (bind r (fun x => k))
  (at level 61, r at next level, right associativity).

Definition is_ok {A : Type} (r : result A) : bool :=
  match r with Ok _ => true | Raise _ => false end.

(** ** Python string operations used by the source *)

Module PyStr.

Definition in_range (lo hi : nat) (c : ascii) : bool :=
  let n := nat_of_ascii c in (lo <=? n)%nat && (n <=? hi)%nat.

(** [c.isascii()]. *)
Definition isascii (c : ascii) : bool := (nat_of_ascii c <? 128)%nat.

(** [c.isdigit()] on an ASCII character. *)
Definition isdigit (c : ascii) : bool := in_range 48 57 c.
Definition isupper (c : ascii) : bool := in_range 65 90 c.
Definition islower (c : ascii) : bool := in_range 97 122 c.
Definition isalpha (c : ascii) : bool := isupper c || islower c.

(** The character class [[A-Za-z0-9]]. *)
Definition isalnum (c : ascii) : bool := isalpha c || isdigit c.

(** The character class [\w] restricted to ASCII. *)
Definition isword (c : ascii) : bool := isalnum c || Ascii.eqb c "_".

(** [c.upper()] and [c.lower()] on an ASCII character. *)
Definition upper (c : ascii) : ascii :=
  if islower c then ascii_of_nat (nat_of_ascii c - 32) else c.

Definition lower (c : ascii) : ascii :=
  if isupper c then ascii_of_nat (nat_of_ascii c + 32) else c.

Fixpoint map (f : ascii -> ascii) (s : string) : string :=
  match s with
  | EmptyString => EmptyString
  | String c s' => String (f c) (map f s')
  end.

Fixpoint forallb (p : ascii -> bool) (s : string) : bool :=
  match s with
  | EmptyString => true
  | String c s' => p c && forallb p s'
  end.

Fixpoint existsb (p : ascii -> bool) (s : string) : bool :=
  match s with
  | EmptyString => false
  | String c s' => p c || existsb p s'
  end.

Fixpoint filter (p : ascii -> bool) (s : string) : string :=
  match s with
  | EmptyString => EmptyString
  | String c s' => if p c then String c (filter p s') else filter p s'
  end.

(** [s.replace(a, b)] for one-character [a] and [b]. *)
Definition replace (a b : ascii) (s : string) : string :=
  map (fun c => if Ascii.eqb c a then b else c) s.

(** [s.split(sep)] for a one-character separator: never empty. *)
Fixpoint split (sep : ascii) (s : string) : list string :=
  match s with
  | EmptyString => [EmptyString]
  | String c s' =>
      if Ascii.eqb c sep then EmptyString :: split sep s'
      else match split sep s' with
           | [] => [String c EmptyString]
           | w :: ws => String c w :: ws
           end
  end.

(** [s.split(sep, maxsplit=1)]: one piece, or the text before and the
    text after the first separator. *)
Fixpoint split1 (sep : ascii) (s : string) : list string :=
  match s with
  | EmptyString => [EmptyString]
  | String c s' =>
      if Ascii.eqb c sep then [EmptyString; s']
      else match split1 sep s' with
           | w :: ws => String c w :: ws
           | [] => [String c EmptyString]
           end
  end.

(** [s.endswith(suffix)]. *)
Definition endswith (suffix s : string) : bool :=
  let n := String.length s in
  let m := String.length suffix in
  (m <=? n)%nat && String.eqb (substring (n - m) m s) suffix.

(** [l[-k]] for [k >= 1]: counted from the end. *)
Definition index_from_end {A : Type} (l : list A) (k : nat) : option A :=
  match k with
  | O => None
  | S k' => nth_error (rev l) k'
  end.

(** [s[-1]]. *)
Fixpoint last_char (s : string) : option ascii :=
  match s with
  | EmptyString => None
  | String c EmptyString => Some c
  | String _ s' => last_char s'
  end.

(** [s.capitalize()] on an ASCII string: first character upper-cased,
    the rest lower-cased. *)
Definition capitalize (s : string) : string :=
  match s with
  | EmptyString => EmptyString
  | String c s' => String (upper c) (map lower s')
  end.

(** ["".join(words)]. *)
Definition join (words : list string) : string :=
  fold_right String.append EmptyString words.

(** The longest prefix of [s] made of characters satisfying [p]. *)
Fixpoint take_while (p : ascii -> bool) (s : string) : string :=
  match s with
  | EmptyString => EmptyString
  | String c s' => if p c then String c (take_while p s') else EmptyString
  end.

(** [re.search(r"[A-Za-z0-9]+", s)]: the leftmost maximal run of
    alphanumeric characters, [None] when there is none. *)
Fixpoint re_search_alnum (s : string) : option string :=
  match s with
  | EmptyString => None
  | String c s' =>
      if isalnum c then Some (take_while isalnum s) else re_search_alnum s'
  end.

(** [s[:n]]. *)
Definition prefix (n : nat) (s : string) : string := substring 0 n s.

(** [str(n)] for a natural number. *)
Definition of_nat (n : nat) : string := NilEmpty.string_of_uint (Nat.to_uint n).

End PyStr.

(** ** The three name classes *)

(** What a validator can be handed: a [str], an instance of one of the
    three name classes (carrying its [name]), or anything else, given by
    its [str()] and the [str()] of its type. *)
Inductive value : Type :=
| VStr (s : string)
| VEpicsName (name : string)
| VPviName (name : string)
| VPandAName (name : string)
| VOther (repr type_repr : string).

Definition unknown_type_message (field repr type_repr : string) : string :=
  field ++ "=" ++ repr ++ " of an unknown type " ++ type_repr ++ ", "
  ++ "expecting EpicsName, PandAName or PviName".

(** The character class [[\w:-]]. *)
Definition control_char (c : ascii) : bool :=
  PyStr.isword c || Ascii.eqb c ":" || Ascii.eqb c "-".

(** [Field(pattern=r"^[\w:-]+$")] of [EpicsName.name]. *)
Definition EpicsName_pattern (s : string) : bool :=
  negb (String.eqb s "") && PyStr.forallb control_char s.

(** [Field(pattern=r"^[A-Za-z0-9]+$")] of [PandAName.name]. *)
Definition PandAName_pattern (s : string) : bool :=
  negb (String.eqb s "") && PyStr.forallb PyStr.isalnum s.

(** [Field(pattern=r"^[A-Za-z0-9]+$")] of [PviName.name]. *)
Definition PviName_pattern (s : string) : bool :=
  negb (String.eqb s "") && PyStr.forallb PyStr.isalnum s.

(** [EpicsName.__init__], the validator of [EpicsName.name]. *)
Definition EpicsName_init (v : value) : result string :=
  match v with
  | VStr s => Ok s
  | VEpicsName name => Ok name
  | VPviName _ => Raise NotImplementedError
  | VPandAName name => Ok (PyStr.replace "." ":" name)
  | VOther repr ty => Raise (ValueError (unknown_type_message "name" repr ty))
  end.

(** The local [record_name] of [PandAName.validator] in the [:LABEL]
    branch (lines 66-70). *)
Definition label_record_name (field_name : string) : result string :=
  match PyStr.index_from_end (PyStr.split ":" field_name) 2 with
  | None => Raise (IndexError "list index out of range")
  | Some block_name =>
      match PyStr.last_char block_name with
      | None => Raise (IndexError "string index out of range")
      | Some c =>
          let block_name :=
            if negb (PyStr.isdigit c) then block_name ++ "1" else block_name in
          Ok ("*METADATA.LABEL_" ++ block_name)
      end
  end.

(** The local [record_name] of [PandAName.validator] in the other branch
    (line 72): the tuple assignment needs exactly two pieces. *)
Definition prefix_stripped_record_name (field_name : string) : result string :=
  match PyStr.split1 ":" field_name with
  | [_; record_name] => Ok record_name
  | _ => Raise (ValueError "not enough values to unpack (expected 2, got 1)")
  end.

(** [PandAName.validator]: the exception raised, or the name assigned
    to [cls.name] by a call that runs to its end.  In the [EpicsName]
    case [record_name] is computed, which can raise, and then left
    unused: the name assigned is [value.name.replace(":", ".")]. *)
Definition PandAName_validator (v : value) : result string :=
  match v with
  | VStr s => Ok s
  | VEpicsName name =>
      _record_name <-
        (if PyStr.endswith ":LABEL" name then label_record_name name
         else prefix_stripped_record_name name) ;;
      Ok (PyStr.replace ":" "." name)
  | VPviName _ => Raise NotImplementedError
  | VPandAName name => Ok name
  | VOther repr ty => Raise (ValueError (unknown_type_message "name" repr ty))
  end.

(** [PviName.validator]: the exception raised, or the name assigned to
    [cls.name] by a call that runs to its end. *)
Definition PviName_validator (v : value) : result string :=
  match v with
  | VStr s => Ok s
  | VEpicsName name =>
      match PyStr.index_from_end (PyStr.split ":" name) 1 with
      | None => Raise (IndexError "list index out of range")
      | Some relevant_section =>
          let words := PyStr.split "_" (PyStr.replace "-" "_" relevant_section) in
          let capitalised_word := PyStr.join (List.map PyStr.capitalize words) in
          match PyStr.re_search_alnum capitalised_word with
          | None => Raise (AssertionError "")
          | Some formatted_word => Ok formatted_word
          end
      end
  | VPviName name => Ok name
  | VPandAName _ => Raise NotImplementedError
  | VOther repr ty => Raise (ValueError (unknown_type_message "value" repr ty))
  end.

(** *** What the validators return, and construction *)

(** The value a validator call evaluates to. *)
Inductive returned : Type :=
| RNone
| RStr (s : string).

(** None of the three validators has a [return] statement: a call that
    runs to its end evaluates to [None], whatever it assigned. *)
Definition returned_value (assigned : result string) : result returned :=
  _ <- assigned ;; Ok RNone.

Definition PandAName_validator_call (v : value) : result returned :=
  returned_value (PandAName_validator v).

Definition PviName_validator_call (v : value) : result returned :=
  returned_value (PviName_validator v).

(** An exception raised inside a field validator, as pydantic hands it
    on: [ValueError] and [AssertionError] become a [ValidationError],
    any other exception propagates. *)
Definition validation_error_of (e : exn) : exn :=
  match e with
  | ValueError msg => ValidationError ("Value error, " ++ msg)
  | AssertionError msg => ValidationError ("Assertion failed, " ++ msg)
  | _ => e
  end.

(** The field [name: str = Field(pattern=...)] applied to the value a
    [mode="before"] validator returned: it must be a [str], and match
    the pattern. *)
Definition validate_name (pattern : string -> bool) (pattern_text : string)
    (r : returned) : result string :=
  match r with
  | RNone => Raise (ValidationError "Input should be a valid string")
  | RStr s =>
      if pattern s then Ok s
      else Raise (ValidationError
                    ("String should match pattern '" ++ pattern_text ++ "'"))
  end.

(** [Class(name=v)] for a model with a [mode="before"] validator of
    [name]: the validator is called on [v] and the value it returns is
    validated as the field; the result is the [name] of the instance. *)
Definition construct (call : value -> result returned)
    (pattern : string -> bool) (pattern_text : string) (v : value)
  : result string :=
  match call v with
  | Raise e => Raise (validation_error_of e)
  | Ok r => validate_name pattern pattern_text r
  end.

(** [PandAName(name=v)]. *)
Definition PandAName_construct (v : value) : result string :=
  construct PandAName_validator_call PandAName_pattern "^[A-Za-z0-9]+$" v.

(** [PviName(name=v)]. *)
Definition PviName_construct (v : value) : result string :=
  construct PviName_validator_call PviName_pattern "^[A-Za-z0-9]+$" v.

(** Building a [PandAName] from a [str]: [PandAName(name=s)]. *)
Definition PandAName_from_str (s : string) : result string :=
  PandAName_construct (VStr s).

(** *** The display form as the specification words it *)

Definition is_separator (c : ascii) : bool :=
  Ascii.eqb c "-" || Ascii.eqb c "_".

(** The separator-delimited words of a segment. *)
Fixpoint split_words (s : string) : list string :=
  match s with
  | EmptyString => [EmptyString]
  | String c s' =>
      if is_separator c then EmptyString :: split_words s'
      else match split_words s' with
           | [] => [String c EmptyString]
           | w :: ws => String c w :: ws
           end
  end.

(** The final colon-separated segment of a name. *)
Definition final_segment (name : string) : string :=
  List.last (PyStr.split ":" name) EmptyString.

(** Display form in the specification's words: the final segment, its
    separators removed, every word capitalized, alphanumerics kept. *)
Definition display_form_spec (name : string) : string :=
  PyStr.filter PyStr.isalnum
    (PyStr.join (List.map PyStr.capitalize (split_words (final_segment name)))).

(** ** Record helpers *)

(** Severity of a [logging] call. *)
Inductive level : Type := ERROR | INFO.

Definition log_record : Type := (level * string)%type.

(** [check_num_labels]: the [assert] raises [AssertionError] with the
    formatted message. *)
Definition check_num_labels (labels : list string) (record_name : string)
  : result unit :=
  if (List.length labels <=? 16)%nat then Ok tt
  else Raise (AssertionError
                ("Too many labels (" ++ PyStr.of_nat (List.length labels)
                 ++ ") to create record " ++ record_name)).

(** [trim_string_value]: the value returned and the records logged. *)
Definition trim_string_value (value record_name : string)
  : string * list log_record :=
  if (39 <? String.length value)%nat then
    (PyStr.prefix 39 value,
     [(ERROR,
       "Value for " ++ record_name
       ++ " longer than EPICS limit of 40 characters."
       ++ "It will be truncated. Value: " ++ value)])
  else (value, []).

(** Truth value of an [Optional[str]]: [None] and [""] are false. *)
Definition truthy (description : option string) : bool :=
  match description with
  | None => false
  | Some s => negb (String.eqb s "")
  end.

(** [trim_description]: the description returned and the records logged. *)
Definition trim_description (description : option string) (record_name : string)
  : option string * list log_record :=
  match description with
  | Some d =>
      if truthy description && (39 <? String.length d)%nat then
        (Some (PyStr.prefix 39 d),
         [(INFO,
           "Description for " ++ record_name ++ " longer than EPICS limit of "
           ++ "40 characters. It will be truncated. Description: " ++ d)])
      else (description, [])
  | None => (description, [])
  end.

(** A 45-character value and the 50-character description of the
    [POSITION] field of the test fixtures. *)
Definition value_of_45 : string :=
  "123456789012345678901234567890123456789012345".

Definition description_of_50 : string :=
  "The position that can be used in trigger condition".

Definition ZNAM_STR : string := "0".
Definition ONAM_STR : string := "1".

(** ** [RecordInfo] *)

(** Values held by the fields of a [RecordInfo]: the dataclass checks no
    types, so every field holds any of them.  Callables, records and
    field infos are opaque handles. *)
Inductive pyval : Type :=
| PNone
| PBool (b : bool)
| PLabels (l : list string)
| PCallable (id : nat)
| PRecordWrapper (id : nat)
| PFieldInfo (id : nat).

(** An instance.  [record] has no default and is not set by
    [__init__]: it is absent until [add_record]. *)
Record RecordInfo : Type := mkRecordInfo {
  record : option pyval;
  data_type_func : pyval;
  labels : pyval;
  is_in_record : pyval;
  on_changes_func : pyval;
  _pending_change : pyval;
  _field_info : pyval
}.

(** The parameters of the [__init__] that [@dataclass] generates, in
    order, with their defaults: the fields declared with [init=False]
    are not among them. *)
Definition init_params : list (string * option pyval) :=
  [("data_type_func", None);
   ("labels", Some PNone);
   ("is_in_record", Some (PBool true));
   ("on_changes_func", Some PNone)].

Fixpoint lookup (k : string) (kwargs : list (string * pyval)) : option pyval :=
  match kwargs with
  | [] => None
  | (k', v) :: rest => if String.eqb k k' then Some v else lookup k rest
  end.

Fixpoint position (k : string) (params : list (string * option pyval)) (i : nat)
  : option nat :=
  match params with
  | [] => None
  | (k', _) :: rest => if String.eqb k k' then Some i else position k rest (S i)
  end.

(** Every keyword must name a parameter that no positional argument
    has filled. *)
Fixpoint check_kwargs (npos : nat) (kwargs : list (string * pyval))
  : result unit :=
  match kwargs with
  | [] => Ok tt
  | (k, _) :: rest =>
      match position k init_params 0 with
      | None =>
          Raise (TypeError
                   ("RecordInfo.__init__() got an unexpected keyword argument '"
                    ++ k ++ "'"))
      | Some i =>
          if (i <? npos)%nat then
            Raise (TypeError
                     ("RecordInfo.__init__() got multiple values for argument '"
                      ++ k ++ "'"))
          else check_kwargs npos rest
      end
  end.

(** The value bound to the [i]-th parameter. *)
Definition bind_param (args : list pyval) (kwargs : list (string * pyval))
    (i : nat) (p : string * option pyval) : result pyval :=
  match nth_error args i with
  | Some v => Ok v
  | None =>
      match lookup (fst p) kwargs with
      | Some v => Ok v
      | None =>
          match snd p with
          | Some d => Ok d
          | None =>
              Raise (TypeError
                       ("RecordInfo.__init__() missing 1 required positional "
                        ++ "argument: '" ++ fst p ++ "'"))
          end
      end
  end.

(** A call of [RecordInfo] with positional arguments [args] and keyword
    arguments [kwargs]. *)
Definition RecordInfo_init (args : list pyval) (kwargs : list (string * pyval))
  : result RecordInfo :=
  if (List.length init_params <? List.length args)%nat then
    Raise (TypeError
             ("RecordInfo.__init__() takes from 2 to 5 positional arguments but "
              ++ PyStr.of_nat (S (List.length args)) ++ " were given"))
  else
    _ <- check_kwargs (List.length args) kwargs ;;
    f <- bind_param args kwargs 0 ("data_type_func", None) ;;
    l <- bind_param args kwargs 1 ("labels", Some PNone) ;;
    i <- bind_param args kwargs 2 ("is_in_record", Some (PBool true)) ;;
    o <- bind_param args kwargs 3 ("on_changes_func", Some PNone) ;;
    Ok {| record := None;
          data_type_func := f;
          labels := l;
          is_in_record := i;
          on_changes_func := o;
          _pending_change := PBool false;
          _field_info := PNone |}.

(** [RecordInfo.add_record]. *)
Definition add_record (self : RecordInfo) (r : pyval) : RecordInfo :=
  {| record := Some r;
     data_type_func := data_type_func self;
     labels := labels self;
     is_in_record := is_in_record self;
     on_changes_func := on_changes_func self;
     _pending_change := _pending_change self;
     _field_info := _field_info self |}.

(** ** The table codec *)

Module TableCodec.

Local Open Scope Z_scope.

(** Modelled from the spec: the interpretation of a field's bits
    (section 3, Field Metadata); the codec's module is not among the
    sources. *)
Inductive subtype : Type := UInt | SInt | Enum.

(** Modelled from the spec: one entry of the Field Metadata of a table
    (section 3); the codec's module is not among the sources. *)
Record FieldMeta : Type := mkField {
  field_name : string;
  bit_low : Z;
  bit_high : Z;
  field_subtype : subtype;
  enum_labels : option (list string);
  description : option string
}.

(** Modelled from the spec: an element of a column (section 3, Column
    Array): a number, or a label for an enumerated field. *)
Inductive cell : Type :=
| Num (z : Z)
| Label (s : string).

(** Modelled from the spec: the error kinds of section 7 that the codec
    signals. *)
Inductive failure : Type := FormatError | RangeError | ConfigurationError.

(** Modelled from the spec: a codec operation returns its value or a
    typed failure (section 7, Propagation). *)
Inductive outcome (A : Type) : Type :=
| Done (a : A)
| Failed (e : failure).

Arguments Done {A} a.
Arguments Failed {A} e.

Definition and_then {A B : Type} (r : outcome A) (k : A -> outcome B)
  : outcome B :=
  match r with
  | Done a => k a
  | Failed e => Failed e
  end.

(** Left-to-right traversal that stops at the first failure. *)
Fixpoint traverse {A B : Type} (f : A -> outcome B) (l : list A)
  : outcome (list B) :=
  match l with
  | [] => Done []
  | x :: r =>
      and_then (f x) (fun y =>
      and_then (traverse f r) (fun ys => Done (y :: ys)))
  end.

(** Modelled from the spec: the width of a field,
    [bit_high - bit_low + 1] (section 4.2, Unpack step 2). *)
Definition width (f : FieldMeta) : Z := bit_high f - bit_low f + 1.

(** Modelled from the spec: the highest [bit_high] of the fields
    (section 3, Table Row Word Array), [-1] for no field. *)
Definition max_bit_high (fields : list FieldMeta) : Z :=
  fold_right (fun f m => Z.max (bit_high f) m) (-1) fields.

(** Modelled from the spec: words per row,
    [ceil((max bit_high + 1) / W)] (section 4.2, Unpack step 1). *)
Definition words_per_row (W : Z) (fields : list FieldMeta) : nat :=
  Z.to_nat ((max_bit_high fields + 1 + W - 1) / W).

(** Word [i] of a row, [0] past its end. *)
Definition word_at (row : list Z) (i : nat) : Z := nth i row 0.

(** Modelled from the spec: the words a field spans, combined (section
    4.2, Unpack step 2): the words [s], [s+1], ..., [s+n-1] of a row as
    one number, the first word lowest. *)
Fixpoint gather (W : Z) (row : list Z) (s n : nat) : Z :=
  match n with
  | O => 0
  | S n' => Z.lor (word_at row s) (Z.shiftl (gather W row (S s) n') W)
  end.

(** Modelled from the spec: extraction of a field's bits from a row
    (section 4.2, Unpack step 2): the words from [start_word] to
    [end_word] are combined, shifted by the offset of [bit_low] in its
    word and masked to the field's width. *)
Definition extract (W : Z) (row : list Z) (f : FieldMeta) : Z :=
  let start_word := bit_low f / W in
  let end_word := bit_high f / W in
  let offset := bit_low f mod W in
  let mask := Z.ones (width f) in
  let spanned :=
    gather W row (Z.to_nat start_word) (Z.to_nat (end_word - start_word + 1)) in
  Z.land (Z.shiftr spanned offset) mask.

(** Modelled from the spec: the first-matching index of a label
    (section 4.2, Pack step 1). *)
Fixpoint index_of (s : string) (l : list string) : option nat :=
  match l with
  | [] => None
  | x :: r =>
      if String.eqb s x then Some O
      else match index_of s r with
           | Some i => Some (S i)
           | None => None
           end
  end.

(** Modelled from the spec: decoding of an extracted value (section
    4.2, Unpack steps 3 and 4): sign extension for a signed field, label
    lookup for an enumerated one, a code outside the list being an
    error. *)
Definition decode (f : FieldMeta) (v : Z) : outcome cell :=
  match field_subtype f with
  | UInt => Done (Num v)
  | SInt =>
      Done (Num (if Z.testbit v (width f - 1) then v - 2 ^ width f else v))
  | Enum =>
      match enum_labels f with
      | Some ls =>
          match nth_error ls (Z.to_nat v) with
          | Some l => Done (Label l)
          | None => Failed RangeError
          end
      | None => Failed ConfigurationError
      end
  end.

(** Modelled from the spec: encoding of a column element (section 4.2,
    Pack steps 1 and 2): first index of the label for an enumerated
    field, two's complement for a signed one, with the range checks. *)
Definition encode (f : FieldMeta) (c : cell) : outcome Z :=
  match field_subtype f, c with
  | UInt, Num v =>
      if (0 <=? v) && (v <? 2 ^ width f) then Done v else Failed RangeError
  | SInt, Num v =>
      if (- 2 ^ (width f - 1) <=? v) && (v <? 2 ^ (width f - 1))
      then Done (v mod 2 ^ width f)
      else Failed RangeError
  | Enum, Label s =>
      match enum_labels f with
      | Some ls =>
          match index_of s ls with
          | Some i =>
              if Z.of_nat i <? 2 ^ width f then Done (Z.of_nat i)
              else Failed RangeError
          | None => Failed FormatError
          end
      | None => Failed ConfigurationError
      end
  | _, _ => Failed FormatError
  end.

(** Modelled from the spec: the part of a field's code that lands in
    word [i] of the row (section 4.2, Pack step 3). *)
Definition deposit (W : Z) (f : FieldMeta) (code : Z) (i : nat) : Z :=
  let start_word := bit_low f / W in
  let offset := bit_low f mod W in
  if Z.of_nat i <? start_word then 0
  else Z.land (Z.shiftr (Z.shiftl code offset) (W * (Z.of_nat i - start_word)))
              (Z.ones W).

(** Modelled from the spec: one packed row, every field's bits OR-ed
    into its words (section 4.2, Pack steps 3 and 4). *)
Definition pack_row (W : Z) (fields : list FieldMeta) (codes : list Z)
  : list Z :=
  List.map
    (fun i =>
       fold_right Z.lor 0
         (List.map (fun fc => deposit W (fst fc) (snd fc) i)
                   (combine fields codes)))
    (seq 0 (words_per_row W fields)).

(** Modelled from the spec: Unpack (section 4.2): the row sizes are
    checked, then every field is extracted and decoded row by row, a
    column per field, rows in order. *)
Definition unpack (W : Z) (fields : list FieldMeta) (words : list (list Z))
  : outcome (list (list cell)) :=
  if List.forallb
       (fun row => (List.length row =? words_per_row W fields)%nat) words
  then traverse
         (fun f => traverse (fun row => decode f (extract W row f)) words)
         fields
  else Failed FormatError.

(** Modelled from the spec: the row count [R] of a Column Array
    (section 3), the length of its first column. *)
Definition row_count (columns : list (list cell)) : nat :=
  match columns with
  | [] => O
  | c :: _ => List.length c
  end.

(** Modelled from the spec: Pack (section 4.2): a column per field, all
    of one length; every element is encoded and row [i] is assembled
    from the [i]-th codes. *)
Definition pack (W : Z) (fields : list FieldMeta) (columns : list (list cell))
  : outcome (list (list Z)) :=
  if (List.length columns =? List.length fields)%nat
     && List.forallb
          (fun c => (List.length c =? row_count columns)%nat) columns
  then
    and_then
      (traverse (fun fc => traverse (encode (fst fc)) (snd fc))
                (combine fields columns))
      (fun codes =>
         Done (List.map
                 (fun i =>
                    pack_row W fields (List.map (fun c => nth i c 0) codes))
                 (seq 0 (row_count columns))))
  else Failed FormatError.

(** *** Constraints on the inputs *)

(** Modelled from the spec: two bit ranges do not overlap (section
    3, Field Metadata). *)
Definition disjoint (f g : FieldMeta) : bool :=
  (bit_high f <? bit_low g) || (bit_high g <? bit_low f).

(** Every two fields of the list have non-overlapping bit ranges. *)
Fixpoint pairwise_disjoint (fields : list FieldMeta) : bool :=
  match fields with
  | [] => true
  | f :: r => List.forallb (disjoint f) r && pairwise_disjoint r
  end.

(** Modelled from the spec: the constraints on one Field Metadata entry
    (section 3): [0 <= low <= high], labels exactly for an enumerated
    field and at most 16 of them. *)
Definition field_ok (f : FieldMeta) : bool :=
  (0 <=? bit_low f) && (bit_low f <=? bit_high f)
  && match field_subtype f, enum_labels f with
     | Enum, Some ls => (List.length ls <=? 16)%nat
     | Enum, None => false
     | _, Some _ => false
     | _, None => true
     end.

(** Modelled from the spec: a valid Field Metadata set for word width
    [W] (section 3): at least one field, every entry well formed, bit
    ranges pairwise non-overlapping. *)
Definition valid_metadata (W : Z) (fields : list FieldMeta) : bool :=
  (0 <? W)
  && negb (Nat.eqb (List.length fields) 0)
  && List.forallb field_ok fields
  && pairwise_disjoint fields.

(** Modelled from the spec: a column element respects the declared
    width and subtype of its field (section 3, Column Array). *)
Definition cell_fits (f : FieldMeta) (c : cell) : bool :=
  match field_subtype f, c with
  | UInt, Num v => (0 <=? v) && (v <? 2 ^ width f)
  | SInt, Num v => (- 2 ^ (width f - 1) <=? v) && (v <? 2 ^ (width f - 1))
  | Enum, Label s =>
      match enum_labels f with
      | Some ls =>
          match index_of s ls with
          | Some i => Z.of_nat i <? 2 ^ width f
          | None => false
          end
      | None => false
      end
  | _, _ => false
  end.

(** Modelled from the spec: a Column Array for [fields] (section 3): a
    column per field, all of one length, every element fitting its
    field. *)
Definition columns_ok (fields : list FieldMeta) (columns : list (list cell))
  : bool :=
  (List.length columns =? List.length fields)%nat
  && List.forallb (fun c => (List.length c =? row_count columns)%nat) columns
  && List.forallb (fun fc => List.forallb (cell_fits (fst fc)) (snd fc))
       (combine fields columns).

(** Modelled from the spec: bit [n] of a row (section 3, Table Row Word
    Array): bit [n mod W] of word [n / W]. *)
Definition row_bit (W : Z) (row : list Z) (n : Z) : bool :=
  Z.testbit (word_at row (Z.to_nat (n / W))) (n mod W).

(** Position [n] lies in the bit range of a field. *)
Definition covered (fields : list FieldMeta) (n : Z) : bool :=
  List.existsb (fun f => (bit_low f <=? n) && (n <=? bit_high f)) fields.

(** The code that a row holds for an enumerated field is canonical: it
    indexes a label (section 4.2, Unpack step 4) and is the first index
    of that label, the one Pack step 1 gives back.  The specification
    asks only that the code index a label; the second condition is what
    the word round trip needs beyond it. *)
Definition code_ok (f : FieldMeta) (v : Z) : bool :=
  match field_subtype f, enum_labels f with
  | Enum, Some ls =>
      match nth_error ls (Z.to_nat v) with
      | Some l =>
          match index_of l ls with
          | Some i => Z.of_nat i =? v
          | None => false
          end
      | None => false
      end
  | Enum, None => false
  | _, _ => true
  end.

(** Modelled from the spec: a row sized per the metadata (sections 3
    and 4.2): [ceil((max bit_high + 1) / W)] words, each a [W]-bit
    unsigned integer. *)
Definition row_sized (W : Z) (fields : list FieldMeta) (row : list Z) : bool :=
  (List.length row =? words_per_row W fields)%nat
  && List.forallb (fun w => (0 <=? w) && (w <? 2 ^ W)) row.

(** Modelled from the spec: a word array sized per the metadata: every
    row is. *)
Definition words_sized (W : Z) (fields : list FieldMeta)
    (words : list (list Z)) : bool :=
  List.forallb (row_sized W fields) words.

(** The rows on which the word round trip holds: sized per the metadata
    and, beyond what the specification asks of a row, with no bit set
    outside the fields' ranges and with every enumerated field holding
    a canonical code. *)
Definition row_ok (W : Z) (fields : list FieldMeta) (row : list Z) : bool :=
  (List.length row =? words_per_row W fields)%nat
  && List.forallb (fun w => (0 <=? w) && (w <? 2 ^ W)) row
  && List.forallb
       (fun n => implb (row_bit W row (Z.of_nat n)) (covered fields (Z.of_nat n)))
       (seq 0 (words_per_row W fields * Z.to_nat W))
  && List.forallb (fun f => code_ok f (extract W row f)) fields.

(** The word arrays on which the word round trip holds: every row
    satisfies [row_ok]. *)
Definition words_ok (W : Z) (fields : list FieldMeta) (words : list (list Z))
  : bool :=
  List.forallb (row_ok W fields) words.

(** The table of the test fixtures ([table_fields], a [SEQ.TABLE]). *)
Definition seq_labels : list string :=
  ["Immediate"; "BITA=0"; "BITA=1"; "BITB=0"; "BITB=1"; "BITC=0"; "BITC=1";
   "POSA>=POSITION"; "POSA<=POSITION"; "POSB>=POSITION"; "POSB<=POSITION";
   "POSC>=POSITION"; "POSC<=POSITION"]%string.

Definition uint_field (n : string) (lo hi : Z) : FieldMeta :=
  mkField n lo hi UInt None None.

Definition table_fields : list FieldMeta :=
  [uint_field "REPEATS" 0 15;
   mkField "TRIGGER" 16 19 Enum (Some seq_labels) None;
   mkField "POSITION" 32 63 SInt None None;
   uint_field "TIME1" 64 95;
   uint_field "OUTA1" 20 20; uint_field "OUTB1" 21 21;
   uint_field "OUTC1" 22 22; uint_field "OUTD1" 23 23;
   uint_field "OUTE1" 24 24; uint_field "OUTF1" 25 25;
   uint_field "TIME2" 96 127;
   uint_field "OUTA2" 26 26; uint_field "OUTB2" 27 27;
   uint_field "OUTC2" 28 28; uint_field "OUTD2" 29 29;
   uint_field "OUTE2" 30 30; uint_field "OUTF2" 31 31].

Definition table_data_1 : list (list Z) :=
  [[2457862149; 4294967291; 100; 0];
   [269877248; 678; 0; 55];
   [4293968720; 0; 9; 9999]].

Definition table_unpacked_data : list (list cell) :=
  [List.map Num [5; 0; 50000];
   List.map Label ["Immediate"; "BITC=1"; "Immediate"]%string;
   List.map Num [-5; 678; 0];
   List.map Num [100; 0; 9];
   List.map Num [0; 1; 1]; List.map Num [0; 0; 1];
   List.map Num [0; 0; 1]; List.map Num [1; 0; 1];
   List.map Num [0; 0; 1]; List.map Num [1; 0; 1];
   List.map Num [0; 55; 9999];
   List.map Num [0; 0; 1]; List.map Num [0; 0; 1];
   List.map Num [1; 1; 1]; List.map Num [0; 0; 1];
   List.map Num [0; 0; 1]; List.map Num [1; 0; 1]].


(** *** Notions used to state the codec's properties *)

(** The words of a row hold [W] bits each. *)
Definition word_sized (W : Z) (row : list Z) : Prop :=
  forall i j, W <= j -> Z.testbit (word_at row i) j = false.

(** The bits of the fields' codes that belong at position [n] of a
    row. *)
Definition placed (l : list (FieldMeta * Z)) (n : Z) : bool :=
  List.existsb (fun fc => Z.testbit (snd fc) (n - bit_low (fst fc))) l.

(** A code that fits its field's width. *)
Definition code_fits (fc : FieldMeta * Z) : Prop :=
  0 <= snd fc < 2 ^ width (fst fc).

(** The code of an element, [0] where [encode] fails. *)
Definition code_of (f : FieldMeta) (c : cell) : Z :=
  match encode f c with
  | Done v => v
  | Failed _ => 0
  end.

(** The element of a code, [Num 0] where [decode] fails. *)
Definition cell_of (f : FieldMeta) (v : Z) : cell :=
  match decode f v with
  | Done c => c
  | Failed _ => Num 0
  end.

(** The codes of the columns, a list per field. *)
Definition column_codes (fields : list FieldMeta) (columns : list (list cell))
  : list (list Z) :=
  List.map (fun fc => List.map (code_of (fst fc)) (snd fc))
           (combine fields columns).

(** The rows that [pack] returns for fitting columns. *)
Definition packed_rows (W : Z) (fields : list FieldMeta)
    (columns : list (list cell)) : list (list Z) :=
  List.map
    (fun i =>
       pack_row W fields
         (List.map (fun c => nth i c 0) (column_codes fields columns)))
    (seq 0 (row_count columns)).

(** The columns that [unpack] returns for well-formed words. *)
Definition unpacked_columns (W : Z) (fields : list FieldMeta)
    (words : list (list Z)) : list (list cell) :=
  List.map
    (fun f => List.map (fun row => cell_of f (extract W row f)) words)
    fields.

End TableCodec.

(** ** The dummy server of the tests *)

Module DummyServer.

(** What [handle_ctrl] reads and updates: the attributes [received],
    [send] (a deque, its left end first) and
    [expected_message_responses] (a dict, as the list of its items; a
    key is looked up at its first item) of the server, and the local
    [is_multiline] of the handler. *)
Record state : Type := mkState {
  received : list string;
  send : list string;
  expected_message_responses : list (string * string);
  is_multiline : bool
}.

(** [d[k]], [None] when [k not in d]. *)
Fixpoint dict_get (k : string) (d : list (string * string)) : option string :=
  match d with
  | [] => None
  | (k', v) :: rest => if String.eqb k k' then Some v else dict_get k rest
  end.

(** [del d[k]]. *)
Definition dict_del (k : string) (d : list (string * string))
  : list (string * string) :=
  List.filter (fun kv => negb (String.eqb k (fst kv))) d.

(** [self.send.popleft()], with ["."] for the [IndexError] of an empty
    deque: the data to send and the deque left. *)
Definition popleft_or_dot (send : list string) : string * list string :=
  match send with
  | data :: rest => (data, rest)
  | [] => (".", [])
  end.

(** [data + "\n"]. *)
Definition to_send (data : string) : string := data ++ String "010" "".

(** [line.endswith(b"<") or line.endswith(b"<B")]: the line ends a
    command that is followed by more lines. *)
Definition opens_multiline (line : string) : bool :=
  PyStr.endswith "<" line || PyStr.endswith "<B" line.

Section Handler.

(** [line.decode()]: the text of a line of bytes, or the error raised
    for bytes that are not valid UTF-8. *)
Variable decode : string -> result string.

(** The body of the loop over the lines of the buffer in
    [DummyServer.handle_ctrl] ([debug] is [False]): the state after the
    line and what was written to the client. *)
Definition handle_line (st : state) (line : string)
  : result (state * list string) :=
  decoded_line <- decode line ;;
  let received' := (received st ++ [decoded_line])%list in
  let queued :=
    match dict_get decoded_line (expected_message_responses st) with
    | Some response =>
        (response :: send st,
         dict_del decoded_line (expected_message_responses st))
    | None => (send st, expected_message_responses st)
    end in
  let multiline :=
    if opens_multiline line then true else is_multiline st in
  if negb multiline || String.eqb line "" then
    let popped := popleft_or_dot (fst queued) in
    Ok ({| received := received';
           send := snd popped;
           expected_message_responses := snd queued;
           is_multiline := false |},
        [to_send (fst popped)])
  else
    Ok ({| received := received';
           send := fst queued;
           expected_message_responses := snd queued;
           is_multiline := multiline |},
        []).

(** The loop of [handle_ctrl] over the lines that the buffer yields, in
    order: the state reached, everything written, and the exception
    that ended the handler, if one did. *)
Fixpoint handle_lines (st : state) (lines : list string)
  : state * list string * option exn :=
  match lines with
  | [] => (st, [], None)
  | line :: rest =>
      match handle_line st line with
      | Raise e => (st, [], Some e)
      | Ok (st', written) =>
          let '(st'', written', e) := handle_lines st' rest in
          (st'', (written ++ written')%list, e)
      end
  end.

End Handler.

(** [line.decode()] on ASCII lines. *)
Definition decode_ascii (line : string) : result string := Ok line.

End DummyServer.

(** * Properties *)

(** ** Characters and strings *)

Section Characters.

Ltac by_cases c := destruct c as [[] [] [] [] [] [] [] []]; vm_compute; intuition congruence.

Lemma isalnum_upper (c : ascii) :
  PyStr.isalnum c = true -> PyStr.isalnum (PyStr.upper c) = true.
Proof. by_cases c. Qed.

Lemma isalnum_lower (c : ascii) :
  PyStr.isalnum c = true -> PyStr.isalnum (PyStr.lower c) = true.
Proof. by_cases c. Qed.

Lemma isalnum_not_separator (c : ascii) :
  PyStr.isalnum c = true -> is_separator c = false.
Proof. by_cases c. Qed.

Lemma isalnum_not_dot (c : ascii) :
  PyStr.isalnum c = true -> Ascii.eqb c "." = false.
Proof. by_cases c. Qed.

Lemma control_char_cases (c : ascii) :
  control_char c = true ->
  Ascii.eqb c ":" = false ->
  PyStr.isalnum c = negb (is_separator c).
Proof. by_cases c. Qed.

Lemma control_char_not_dot (c : ascii) :
  control_char c = true ->
  Ascii.eqb c "." = false.
Proof. by_cases c. Qed.

End Characters.

Lemma forallb_append (p : ascii -> bool) (s t : string) :
  PyStr.forallb p (s ++ t) = PyStr.forallb p s && PyStr.forallb p t.
Proof.
  induction s as [|c s IH]; simpl; [reflexivity|].
  now rewrite IH, andb_assoc.
Qed.

Lemma forallb_map (p : ascii -> bool) (f : ascii -> ascii) (s : string) :
  (forall c, p c = true -> p (f c) = true) ->
  PyStr.forallb p s = true -> PyStr.forallb p (PyStr.map f s) = true.
Proof.
  intros Hf. induction s as [|c s IH]; simpl; [reflexivity|].
  rewrite !andb_true_iff. intros [Hc Hs]. auto.
Qed.

Lemma forallb_weaken (p q : ascii -> bool) (s : string) :
  (forall c, p c = true -> q c = true) ->
  PyStr.forallb p s = true -> PyStr.forallb q s = true.
Proof.
  intros Hpq. induction s as [|c s IH]; simpl; [reflexivity|].
  rewrite !andb_true_iff. intros [Hc Hs]. auto.
Qed.

Lemma take_while_all (p : ascii -> bool) (s : string) :
  PyStr.forallb p s = true -> PyStr.take_while p s = s.
Proof.
  induction s as [|c s IH]; simpl; [reflexivity|].
  rewrite andb_true_iff. intros [Hc Hs]. rewrite Hc, IH; auto.
Qed.

Lemma filter_all (p : ascii -> bool) (s : string) :
  PyStr.forallb p s = true -> PyStr.filter p s = s.
Proof.
  induction s as [|c s IH]; simpl; [reflexivity|].
  rewrite andb_true_iff. intros [Hc Hs]. rewrite Hc, IH; auto.
Qed.

(** On a non-empty alphanumeric string the search matches all of it. *)
Lemma re_search_alnum_all (s : string) :
  PyStr.forallb PyStr.isalnum s = true -> s <> EmptyString ->
  PyStr.re_search_alnum s = Some s.
Proof.
  destruct s as [|c s]; [congruence|].
  intros H _. pose proof (take_while_all _ _ H) as Ht.
  simpl in H. apply andb_true_iff in H as [Hc _].
  unfold PyStr.re_search_alnum. rewrite Hc. now rewrite Ht.
Qed.

Lemma capitalize_alnum (w : string) :
  PyStr.forallb PyStr.isalnum w = true ->
  PyStr.forallb PyStr.isalnum (PyStr.capitalize w) = true.
Proof.
  destruct w as [|c w]; simpl; [reflexivity|].
  rewrite !andb_true_iff. intros [Hc Hw]. split.
  - now apply isalnum_upper.
  - apply forallb_map; [apply isalnum_lower | exact Hw].
Qed.

Lemma join_alnum (ws : list string) :
  Forall (fun w => PyStr.forallb PyStr.isalnum w = true) ws ->
  PyStr.forallb PyStr.isalnum (PyStr.join ws) = true.
Proof.
  induction 1 as [|w ws Hw _ IH]; simpl; [reflexivity|].
  now rewrite forallb_append, Hw, IH.
Qed.

(** ** Splitting *)

Lemma split_not_nil (sep : ascii) (s : string) : PyStr.split sep s <> [].
Proof.
  destruct s as [|c s]; simpl; [discriminate|].
  destruct (Ascii.eqb c sep); [discriminate|].
  destruct (PyStr.split sep s); discriminate.
Qed.

(** The pieces of a split keep the characters of the string and hold no
    separator. *)
Lemma split_pieces (p : ascii -> bool) (sep : ascii) (s : string) :
  PyStr.forallb p s = true ->
  Forall (fun w => PyStr.forallb p w = true
                   /\ PyStr.forallb (fun c => negb (Ascii.eqb c sep)) w = true)
         (PyStr.split sep s).
Proof.
  induction s as [|c s IH]; simpl.
  - intros _. constructor; [split; reflexivity | constructor].
  - rewrite andb_true_iff. intros [Hc Hs]. specialize (IH Hs).
    destruct (Ascii.eqb c sep) eqn:E.
    + constructor; [split; reflexivity | exact IH].
    + destruct (PyStr.split sep s) as [|w ws]; simpl.
      * constructor; [|constructor]. simpl. now rewrite Hc, E.
      * inversion IH as [|? ? [Hw1 Hw2] Hws]; subst.
        constructor; [|exact Hws]. simpl. now rewrite Hc, E, Hw1, Hw2.
Qed.

Lemma index_from_end_last {A : Type} (l : list A) (d : A) :
  l <> [] -> PyStr.index_from_end l 1 = Some (List.last l d).
Proof.
  intros Hl. destruct (exists_last Hl) as [l' [a ->]].
  unfold PyStr.index_from_end. rewrite rev_app_distr. simpl.
  now rewrite last_last.
Qed.

(** The final segment of a control-form name is made of word
    characters and hyphens, and holds no colon. *)
Lemma final_segment_chars (name : string) :
  PyStr.forallb control_char name = true ->
  PyStr.forallb control_char (final_segment name) = true
  /\ PyStr.forallb (fun c => negb (Ascii.eqb c ":")) (final_segment name) = true.
Proof.
  intros H. pose proof (split_pieces _ ":" _ H) as HF.
  unfold final_segment.
  rewrite Forall_forall in HF. apply HF.
  destruct (exists_last (split_not_nil ":" name)) as [l' [a E]].
  rewrite E, last_last. apply in_or_app. right. now left.
Qed.

(** Replacing hyphens by underscores and splitting at underscores is
    splitting at either separator. *)
Lemma split_replace_words (s : string) :
  PyStr.split "_" (PyStr.replace "-" "_" s) = split_words s.
Proof.
  induction s as [|c s IH]; [reflexivity|].
  unfold PyStr.replace in *. simpl. rewrite IH.
  unfold is_separator.
  destruct (Ascii.eqb c "-") eqn:E1; simpl; [reflexivity|].
  destruct (Ascii.eqb c "_") eqn:E2; reflexivity.
Qed.

Lemma split_words_pieces (p : ascii -> bool) (s : string) :
  PyStr.forallb p s = true ->
  Forall (fun w => PyStr.forallb p w = true
                   /\ PyStr.forallb (fun c => negb (is_separator c)) w = true)
         (split_words s).
Proof.
  induction s as [|c s IH]; simpl.
  - intros _. constructor; [split; reflexivity | constructor].
  - rewrite andb_true_iff. intros [Hc Hs]. specialize (IH Hs).
    destruct (is_separator c) eqn:E.
    + constructor; [split; reflexivity | exact IH].
    + destruct (split_words s) as [|w ws]; simpl.
      * constructor; [|constructor]. simpl. now rewrite Hc, E.
      * inversion IH as [|? ? [Hw1 Hw2] Hws]; subst.
        constructor; [|exact Hws]. simpl. now rewrite Hc, E, Hw1, Hw2.
Qed.

(** The capitalized words join to the empty string exactly when the
    segment holds separators only. *)
Lemma join_capitalize_empty (s : string) :
  PyStr.join (List.map PyStr.capitalize (split_words s)) = EmptyString
  <-> PyStr.forallb is_separator s = true.
Proof.
  induction s as [|c s IH]; simpl; [tauto|].
  destruct (is_separator c) eqn:E; simpl; [exact IH|].
  split; [|discriminate].
  destruct (split_words s); simpl; discriminate.
Qed.

(** ** Display form *)

Lemma segment_words_alnum (seg : string) :
  PyStr.forallb control_char seg = true ->
  PyStr.forallb (fun c => negb (Ascii.eqb c ":")) seg = true ->
  Forall (fun w => PyStr.forallb PyStr.isalnum w = true) (split_words seg).
Proof.
  intros Hc Hn.
  assert (Hp : PyStr.forallb
                 (fun c => control_char c && negb (Ascii.eqb c ":")) seg = true).
  { clear -Hc Hn. induction seg as [|c s IH]; simpl in *; [reflexivity|].
    apply andb_true_iff in Hc as [Hc1 Hc2].
    apply andb_true_iff in Hn as [Hn1 Hn2].
    now rewrite Hc1, Hn1, IH. }
  pose proof (split_words_pieces _ _ Hp) as HF.
  eapply Forall_impl; [|exact HF]. intros w [H1 H2].
  clear -H1 H2. induction w as [|c w IH]; simpl in *; [reflexivity|].
  apply andb_true_iff in H1 as [H1 H1'].
  apply andb_true_iff in H2 as [H2 H2'].
  apply andb_true_iff in H1 as [Hcc Hcol].
  rewrite (control_char_cases c Hcc), H2, IH; auto.
  now destruct (Ascii.eqb c ":").
Qed.

Lemma segment_alnum_or_separators (seg : string) :
  PyStr.forallb control_char seg = true ->
  PyStr.forallb (fun c => negb (Ascii.eqb c ":")) seg = true ->
  PyStr.existsb PyStr.isalnum seg = negb (PyStr.forallb is_separator seg).
Proof.
  induction seg as [|c s IH]; simpl; [reflexivity|].
  rewrite !andb_true_iff. intros [Hc Hs] [Hn Hns].
  rewrite IH by assumption.
  rewrite (control_char_cases c Hc) by now destruct (Ascii.eqb c ":").
  now destruct (is_separator c), (PyStr.forallb is_separator s).
Qed.

(** What the validator computes before the search, for any name. *)
Lemma PviName_validator_unfold (name : string) :
  PviName_validator (VEpicsName name) =
  match PyStr.re_search_alnum
          (PyStr.join (List.map PyStr.capitalize
                         (split_words (final_segment name)))) with
  | None => Raise (AssertionError "")
  | Some formatted_word => Ok formatted_word
  end.
Proof.
  unfold PviName_validator.
  rewrite (index_from_end_last _ EmptyString (split_not_nil ":" name)).
  fold (final_segment name). now rewrite split_replace_words.
Qed.

(** The name that [PviName.validator] assigns is the display form as
    the specification words it: for a control-form name of ASCII word
    characters, colons and hyphens whose final segment holds an
    alphanumeric character, the validator runs to its end and assigns
    that segment with the separators removed, every word capitalized and
    only alphanumeric characters kept; when the segment holds none, the
    assertion fails. *)
Lemma assigned_display_form (name : string) :
  EpicsName_pattern name = true ->
  (PyStr.existsb PyStr.isalnum (final_segment name) = true ->
   PviName_validator (VEpicsName name) = Ok (display_form_spec name))
  /\ (PyStr.existsb PyStr.isalnum (final_segment name) = false ->
      PviName_validator (VEpicsName name) = Raise (AssertionError "")).
Proof.
  unfold EpicsName_pattern. rewrite andb_true_iff. intros [_ Hname].
  destruct (final_segment_chars name Hname) as [Hc Hn].
  rewrite (segment_alnum_or_separators _ Hc Hn).
  rewrite PviName_validator_unfold. unfold display_form_spec.
  pose proof (segment_words_alnum _ Hc Hn) as Hw.
  set (joined := PyStr.join (List.map PyStr.capitalize
                               (split_words (final_segment name)))).
  assert (Hj : PyStr.forallb PyStr.isalnum joined = true).
  { apply join_alnum. apply Forall_map.
    eapply Forall_impl; [|exact Hw]. intros w. apply capitalize_alnum. }
  pose proof (join_capitalize_empty (final_segment name)) as He.
  fold joined in He.
  split; intros Hsep.
  - rewrite re_search_alnum_all, filter_all; auto.
    intros E. apply He in E. rewrite E in Hsep. discriminate.
  - apply negb_false_iff in Hsep. apply He in Hsep. now rewrite Hsep.
Qed.

(** C4: the conversion of a control-form name to display form should
    return the final segment with its separators removed and its words
    capitalized.  For ["TEST-PREFIX:TEST:STR"] the validator computes
    that display form, ["Str"], and assigns it to [cls.name], but it has
    no [return]: the call evaluates to [None], which pydantic refuses as
    the [name] field, so [PviName(name=...)] raises [ValidationError].
    No source at all gives a [PviName]. *)
Theorem display_form_assigned_not_returned :
  display_form_spec "TEST-PREFIX:TEST:STR" = "Str"
  /\ PviName_validator (VEpicsName "TEST-PREFIX:TEST:STR") = Ok "Str"
  /\ PviName_validator_call (VEpicsName "TEST-PREFIX:TEST:STR") = Ok RNone
  /\ PviName_construct (VEpicsName "TEST-PREFIX:TEST:STR")
     = Raise (ValidationError "Input should be a valid string")
  /\ (forall v, is_ok (PviName_construct v) = false).
Proof.
  repeat (split; [reflexivity|]).
  intros v. unfold PviName_construct, construct, PviName_validator_call.
  destruct (PviName_validator v); reflexivity.
Qed.

(** A name that the validator assigns for a control-form name of ASCII
    word characters, colons and hyphens is non-empty and
    alphanumeric. *)
Lemma display_form_matches_pattern (name d : string) :
  EpicsName_pattern name = true ->
  PviName_validator (VEpicsName name) = Ok d ->
  PviName_pattern d = true.
Proof.
  intros Hp. pose proof Hp as Hp'.
  unfold EpicsName_pattern in Hp'. apply andb_true_iff in Hp' as [_ Hname].
  destruct (final_segment_chars name Hname) as [Hc Hn].
  rewrite PviName_validator_unfold.
  pose proof (segment_words_alnum _ Hc Hn) as Hw.
  set (joined := PyStr.join (List.map PyStr.capitalize
                               (split_words (final_segment name)))).
  assert (Hj : PyStr.forallb PyStr.isalnum joined = true).
  { apply join_alnum. apply Forall_map.
    eapply Forall_impl; [|exact Hw]. intros w. apply capitalize_alnum. }
  destruct joined as [|c j] eqn:E; [discriminate|].
  rewrite re_search_alnum_all by (auto; discriminate).
  intros [= <-]. unfold PviName_pattern. now rewrite Hj.
Qed.

(** ** Device form and control form *)

Lemma split1_without_separator (sep : ascii) (s : string) :
  PyStr.existsb (fun c => Ascii.eqb c sep) s = false ->
  PyStr.split1 sep s = [s].
Proof.
  induction s as [|c s IH]; simpl; [reflexivity|].
  rewrite orb_false_iff. intros [Hc Hs]. now rewrite Hc, IH.
Qed.

Lemma split1_with_separator (sep : ascii) (s : string) :
  PyStr.existsb (fun c => Ascii.eqb c sep) s = true ->
  exists a b, PyStr.split1 sep s = [a; b].
Proof.
  induction s as [|c s IH]; simpl; [discriminate|].
  destruct (Ascii.eqb c sep); simpl.
  - intros _. now exists EmptyString, s.
  - intros H. destruct (IH H) as [a [b ->]]. now exists (String c a), b.
Qed.

Lemma replace_back (a b : ascii) (s : string) :
  PyStr.forallb (fun c => negb (Ascii.eqb c b)) s = true ->
  PyStr.replace b a (PyStr.replace a b s) = s.
Proof.
  unfold PyStr.replace. induction s as [|c s IH]; simpl; [reflexivity|].
  rewrite andb_true_iff, negb_true_iff. intros [Hc Hs]. rewrite IH by exact Hs.
  f_equal. destruct (Ascii.eqb c a) eqn:E.
  - rewrite Ascii.eqb_refl. symmetry. now apply Ascii.eqb_eq.
  - now rewrite Hc.
Qed.

(** What [PandAName.validator] assigns, whenever it runs to its end,
    is the control-form name with its colons replaced by dots. *)
Lemma PandAName_validator_assigns (name d : string) :
  PandAName_validator (VEpicsName name) = Ok d ->
  d = PyStr.replace ":" "." name.
Proof.
  simpl. destruct (if PyStr.endswith ":LABEL" name then _ else _); simpl;
    congruence.
Qed.

(** A control-form name without a colon is not converted: the tuple
    assignment of line 72 raises. *)
Lemma control_without_colon_raises (x : string) :
  PyStr.existsb (fun c => Ascii.eqb c ":") x = false ->
  PyStr.endswith ":LABEL" x = false ->
  PandAName_validator (VEpicsName x)
  = Raise (ValueError "not enough values to unpack (expected 2, got 1)").
Proof.
  intros Hc Hl. simpl. rewrite Hl. unfold prefix_stripped_record_name.
  now rewrite (split1_without_separator _ _ Hc).
Qed.

(** C1: the conversion of a control-form name ending in [:LABEL] should
    yield [*METADATA.LABEL_<blockname>].  The validator computes that
    name in its local [record_name], for both ["PCAP1:LABEL"] and
    ["PCAP:LABEL"], and then assigns the dot-joined name instead. *)
Theorem label_conversion_discards_record_name :
  label_record_name "PCAP1:LABEL" = Ok "*METADATA.LABEL_PCAP1"
  /\ label_record_name "PCAP:LABEL" = Ok "*METADATA.LABEL_PCAP1"
  /\ PandAName_validator (VEpicsName "PCAP1:LABEL") = Ok "PCAP1.LABEL"
  /\ PandAName_validator (VEpicsName "PCAP:LABEL") = Ok "PCAP.LABEL".
Proof. repeat split. Qed.

(** C3: a valid control-form name that does not end in [:LABEL] should
    go to device form and back unchanged.  ["REPEATS"], a name of the
    test fixtures, is valid and holds no colon: its conversion to device
    form raises [ValueError] and there is no device form to convert
    back. *)
Theorem control_name_without_colon_not_converted :
  EpicsName_pattern "REPEATS" = true
  /\ PyStr.endswith ":LABEL" "REPEATS" = false
  /\ PandAName_validator (VEpicsName "REPEATS")
     = Raise (ValueError "not enough values to unpack (expected 2, got 1)").
Proof. repeat split. Qed.

(** C5: converting a display-form name to control form, or to device
    form, raises [NotImplementedError] whatever the name is; no name is
    returned. *)
Theorem display_form_not_convertible (name : string) :
  EpicsName_init (VPviName name) = Raise NotImplementedError
  /\ PandAName_validator (VPviName name) = Raise NotImplementedError.
Proof. split; reflexivity. Qed.

(** No string with a dot matches the pattern of [PandAName.name]. *)
Lemma PandAName_pattern_no_dot (s : string) :
  PandAName_pattern s = true ->
  PyStr.existsb (fun c => Ascii.eqb c ".") s = false.
Proof.
  unfold PandAName_pattern. rewrite andb_true_iff. intros [_ H].
  induction s as [|c s IH]; simpl in *; [reflexivity|].
  apply andb_true_iff in H as [Hc Hs].
  now rewrite (isalnum_not_dot c Hc), IH.
Qed.

(** C6: a device-form name should be accepted when it is made of
    alphanumeric segments joined by dots.  ["PCAP.BITS2"], a device name
    of the test fixtures, is of that form and [PandAName(name=...)]
    raises [ValidationError] for it: the validator has no [return], so
    the field is given [None], which is not a string.  The same happens
    for every string, a single segment such as ["PCAP"] included; and
    the pattern of the field, [^[A-Za-z0-9]+$], admits no dot, so it
    would refuse ["PCAP.BITS2"] as well. *)
Theorem dotted_device_name_refused :
  PandAName_from_str "PCAP.BITS2"
  = Raise (ValidationError "Input should be a valid string")
  /\ PandAName_validator_call (VStr "PCAP.BITS2") = Ok RNone
  /\ PandAName_pattern "PCAP.BITS2" = false
  /\ (forall s, is_ok (PandAName_from_str s) = false).
Proof. repeat split. Qed.

(** ** Record helpers *)

Lemma prefix_spec (n : nat) (s : string) :
  (n <= String.length s)%nat ->
  String.length (PyStr.prefix n s) = n
  /\ exists rest, s = PyStr.prefix n s ++ rest.
Proof.
  unfold PyStr.prefix. revert s.
  induction n as [|n IH]; intros s Hn.
  - destruct s; simpl; (split; [reflexivity|]); eexists; reflexivity.
  - destruct s as [|c s]; simpl in *; [lia|].
    destruct (IH s ltac:(lia)) as [Hlen [rest Hrest]].
    split; [now rewrite Hlen|]. exists rest. now rewrite <- Hrest.
Qed.

(** C7: [trim_string_value] returns a value of at most 39 characters
    unchanged and logs nothing; a longer value is cut to its first 39
    characters and one record is logged at error severity.  The function
    returns in both cases. *)
Theorem trim_string_value_spec (value record_name : string) :
  ((String.length value <= 39)%nat ->
   trim_string_value value record_name = (value, []))
  /\ ((39 < String.length value)%nat ->
      exists msg rest,
        trim_string_value value record_name
        = (PyStr.prefix 39 value, [(ERROR, msg)])
        /\ String.length (PyStr.prefix 39 value) = 39%nat
        /\ value = PyStr.prefix 39 value ++ rest).
Proof.
  unfold trim_string_value. split; intros H.
  - destruct (Nat.ltb_spec 39 (String.length value)); [lia | reflexivity].
  - destruct (Nat.ltb_spec 39 (String.length value)); [|lia].
    destruct (prefix_spec 39 value ltac:(lia)) as [Hlen [rest Hrest]].
    eexists. exists rest. repeat split; assumption.
Qed.

Lemma trim_string_value_witness :
  fst (trim_string_value value_of_45 "TEST:STR")
  = "123456789012345678901234567890123456789"
  /\ List.map fst (snd (trim_string_value value_of_45 "TEST:STR")) = [ERROR]
  /\ trim_string_value "short" "TEST:STR" = ("short", []).
Proof.
  destruct (trim_string_value_spec value_of_45 "TEST:STR") as [_ H].
  destruct H as [msg [rest [E _]]]; [vm_compute; lia|].
  rewrite E. split; [reflexivity|]. split; [reflexivity|].
  apply (trim_string_value_spec "short" "TEST:STR"). vm_compute. lia.
Defined.

(** C8: [check_num_labels] raises its assertion error for every label
    list of more than 16 entries and returns for every list of at most
    16. *)
Theorem check_num_labels_spec (labels : list string) (record_name : string) :
  ((List.length labels <= 16)%nat ->
   check_num_labels labels record_name = Ok tt)
  /\ ((16 < List.length labels)%nat ->
      exists msg,
        check_num_labels labels record_name = Raise (AssertionError msg)).
Proof.
  unfold check_num_labels. split; intros H.
  - destruct (Nat.leb_spec (List.length labels) 16); [reflexivity | lia].
  - destruct (Nat.leb_spec (List.length labels) 16); [lia|].
    eexists. reflexivity.
Qed.

Lemma check_num_labels_witness :
  is_ok (check_num_labels (repeat "label" 17) "TEST:ENUM") = false
  /\ check_num_labels (repeat "label" 16) "TEST:ENUM" = Ok tt.
Proof.
  split.
  - destruct (check_num_labels_spec (repeat "label" 17) "TEST:ENUM") as [_ H].
    destruct H as [msg E]; [vm_compute; lia|]. now rewrite E.
  - apply (check_num_labels_spec (repeat "label" 16) "TEST:ENUM").
    vm_compute. lia.
Defined.

(** C9: [trim_description] cuts a description of more than 39
    characters to its first 39 and logs one record; it returns the cut
    description and raises nothing.  A description of at most 39
    characters is returned unchanged, with nothing logged. *)
Theorem trim_description_spec (d record_name : string) :
  ((39 < String.length d)%nat ->
   exists msg rest,
     trim_description (Some d) record_name
     = (Some (PyStr.prefix 39 d), [(INFO, msg)])
     /\ String.length (PyStr.prefix 39 d) = 39%nat
     /\ d = PyStr.prefix 39 d ++ rest)
  /\ ((String.length d <= 39)%nat ->
      trim_description (Some d) record_name = (Some d, [])).
Proof.
  unfold trim_description, truthy. split; intros H.
  - destruct (Nat.ltb_spec 39 (String.length d)); [|lia].
    destruct d as [|c d]; [simpl in H; lia|]. simpl negb. cbv iota beta.
    simpl andb.
    destruct (prefix_spec 39 (String c d) ltac:(lia)) as [Hlen [rest Hrest]].
    eexists. exists rest. repeat split; assumption.
  - destruct (Nat.ltb_spec 39 (String.length d)); [lia|].
    now rewrite andb_false_r.
Qed.

Lemma trim_description_witness :
  fst (trim_description (Some description_of_50) "SEQ1:TABLE")
  = Some "The position that can be used in trigge"
  /\ trim_description (Some "Sequencer table") "SEQ1:TABLE"
     = (Some "Sequencer table", []).
Proof.
  destruct (trim_description_spec description_of_50 "SEQ1:TABLE") as [H _].
  destruct H as [msg [rest [E _]]]; [vm_compute; lia|].
  rewrite E. split; [reflexivity|].
  apply (trim_description_spec "Sequencer table" "SEQ1:TABLE"). vm_compute. lia.
Defined.

(** ** [RecordInfo] *)

(** A keyword that names no parameter of [__init__] is refused. *)
Lemma check_kwargs_unknown (npos : nat) (k : string)
    (kwargs : list (string * pyval)) :
  position k init_params 0 = None ->
  lookup k kwargs <> None ->
  is_ok (check_kwargs npos kwargs) = false.
Proof.
  intros Hk. induction kwargs as [|[k' v] rest IH];
    cbn [check_kwargs lookup]; [congruence|].
  intros Hl. destruct (position k' init_params 0) as [i|] eqn:Ep; [|reflexivity].
  destruct (i <? npos)%nat; [reflexivity|].
  apply IH. destruct (String.eqb_spec k k') as [->|]; [congruence | exact Hl].
Qed.

Lemma RecordInfo_init_unknown_keyword (args : list pyval)
    (kwargs : list (string * pyval)) (k : string) :
  position k init_params 0 = None ->
  lookup k kwargs <> None ->
  is_ok (RecordInfo_init args kwargs) = false.
Proof.
  intros Hk Hl. unfold RecordInfo_init.
  destruct (_ <? _)%nat; [reflexivity|].
  pose proof (check_kwargs_unknown (List.length args) k kwargs Hk Hl) as H.
  destruct (check_kwargs (List.length args) kwargs); [discriminate | reflexivity].
Qed.

(** C10: every [RecordInfo] that the constructor returns has its
    pending-change flag [False] and its field info [None]; a call that
    passes either as a keyword is refused, and the constructor has no
    positional parameter for them; [labels] is [None] and [is_in_record]
    is [True] when the call does not give them.  [trim_description]
    returns [None] for [None] and logs nothing. *)
Theorem RecordInfo_fresh (args : list pyval) (kwargs : list (string * pyval)) :
  (forall r, RecordInfo_init args kwargs = Ok r ->
     _pending_change r = PBool false
     /\ _field_info r = PNone
     /\ ((List.length args <= 1)%nat -> lookup "labels" kwargs = None ->
         labels r = PNone)
     /\ ((List.length args <= 2)%nat -> lookup "is_in_record" kwargs = None ->
         is_in_record r = PBool true))
  /\ (lookup "_pending_change" kwargs <> None ->
      is_ok (RecordInfo_init args kwargs) = false)
  /\ (lookup "_field_info" kwargs <> None ->
      is_ok (RecordInfo_init args kwargs) = false)
  /\ List.map fst init_params
     = ["data_type_func"; "labels"; "is_in_record"; "on_changes_func"]
  /\ (forall record_name, trim_description None record_name = (None, [])).
Proof.
  split; [|split; [|split; [|split]]].
  - intros r. unfold RecordInfo_init.
    destruct (_ <? _)%nat; [discriminate|].
    destruct (check_kwargs _ _); [|discriminate]. simpl.
    destruct (bind_param args kwargs 0 _) as [f|] eqn:Ef; [|discriminate].
    simpl.
    destruct (bind_param args kwargs 1 _) as [l|] eqn:El; [|discriminate].
    simpl.
    destruct (bind_param args kwargs 2 _) as [i|] eqn:Ei; [|discriminate].
    simpl.
    destruct (bind_param args kwargs 3 _) as [o|] eqn:Eo; [|discriminate].
    simpl. intros [= <-]. simpl.
    split; [reflexivity|]. split; [reflexivity|]. split.
    + intros Hn Hk. unfold bind_param in El. cbn [fst snd] in El.
      assert (nth_error args 1 = None) as E by (apply nth_error_None; lia).
      rewrite E, Hk in El. congruence.
    + intros Hn Hk. unfold bind_param in Ei. cbn [fst snd] in Ei.
      assert (nth_error args 2 = None) as E by (apply nth_error_None; lia).
      rewrite E, Hk in Ei. congruence.
  - apply RecordInfo_init_unknown_keyword. reflexivity.
  - apply RecordInfo_init_unknown_keyword. reflexivity.
  - reflexivity.
  - reflexivity.
Qed.

Lemma RecordInfo_fresh_witness :
  (exists r, RecordInfo_init [PCallable 0] [] = Ok r
             /\ _pending_change r = PBool false
             /\ _field_info r = PNone
             /\ labels r = PNone
             /\ is_in_record r = PBool true)
  /\ is_ok (RecordInfo_init [PCallable 0] [("_pending_change", PBool true)])
     = false.
Proof.
  split.
  - eexists. split; [reflexivity|].
    destruct (RecordInfo_fresh [PCallable 0] []) as [H _].
    destruct (H _ eq_refl) as [H1 [H2 [H3 H4]]].
    split; [exact H1|]. split; [exact H2|]. split.
    + apply H3; [simpl; lia | reflexivity].
    + apply H4; [simpl; lia | reflexivity].
  - destruct (RecordInfo_fresh [PCallable 0] [("_pending_change", PBool true)])
      as [_ [H _]].
    apply H. discriminate.
Defined.

(** [add_record] leaves the flag and the field info as they are. *)
Lemma add_record_keeps_flags (self : RecordInfo) (r : pyval) :
  _pending_change (add_record self r) = _pending_change self
  /\ _field_info (add_record self r) = _field_info self
  /\ record (add_record self r) = Some r.
Proof. repeat split. Qed.

(** ** The table codec: bits *)

Section CodecBits.

Import TableCodec.
Local Open Scope Z_scope.

Variable W : Z.
Hypothesis W_pos : 0 < W.

(** A number below [2 ^ n] has no bit at [n] or above. *)
Lemma testbit_small (a n j : Z) :
  0 <= a < 2 ^ n -> n <= j -> Z.testbit a j = false.
Proof.
  intros [Ha Hlt] Hj.
  destruct (Z.eq_dec a 0) as [->|Hne]; [apply Z.bits_0|].
  apply Z.bits_above_log2; [exact Ha|].
  assert (Z.log2 a < n) by (apply Z.log2_lt_pow2; lia). lia.
Qed.

(** A field's value and the half-range test on its top bit. *)
Lemma testbit_top (v w : Z) :
  1 <= w -> 0 <= v < 2 ^ w ->
  Z.testbit v (w - 1) = (2 ^ (w - 1) <=? v).
Proof.
  intros Hw [Hv Hlt].
  assert (E : 2 ^ w = 2 * 2 ^ (w - 1)).
  { replace w with (Z.succ (w - 1)) at 1 by lia. apply Z.pow_succ_r. lia. }
  assert (Hp : 0 < 2 ^ (w - 1)) by (apply Z.pow_pos_nonneg; lia).
  destruct (Z.leb_spec (2 ^ (w - 1)) v) as [Hge|Hl].
  - apply Z.testbit_true; [lia|].
    replace (v / 2 ^ (w - 1)) with 1; [reflexivity|].
    apply Z.div_unique with (r := v - 2 ^ (w - 1)); lia.
  - apply Z.testbit_false; [lia|].
    rewrite Z.div_small by lia. reflexivity.
Qed.

Lemma word_sized_of_range (row : list Z) :
  List.forallb (fun w => (0 <=? w) && (w <? 2 ^ W)) row = true ->
  word_sized W row.
Proof.
  intros H i j Hj. unfold word_at.
  destruct (Nat.lt_ge_cases i (List.length row)) as [Hi|Hi].
  - rewrite forallb_forall in H.
    specialize (H (nth i row 0) (nth_In _ _ Hi)).
    apply andb_true_iff in H as [H1 H2].
    apply (testbit_small _ W); lia.
  - rewrite nth_overflow by exact Hi. apply Z.bits_0.
Qed.

Lemma gather_bits (row : list Z) (n s : nat) (j : Z) :
  word_sized W row -> 0 <= j ->
  Z.testbit (gather W row s n) j =
  (j <? W * Z.of_nat n)
  && Z.testbit (word_at row (s + Z.to_nat (j / W))) (j mod W).
Proof.
  intros Hrow. revert s j.
  induction n as [|n IH]; intros s j Hj.
  - simpl gather. rewrite Z.bits_0.
    destruct (Z.ltb_spec j (W * Z.of_nat 0)); [lia | reflexivity].
  - simpl gather. rewrite Z.lor_spec.
    destruct (Z.lt_ge_cases j W) as [Hlt|Hge].
    + rewrite Z.shiftl_spec_low by exact Hlt.
      rewrite orb_false_r, Z.div_small, Z.mod_small by lia.
      simpl Z.to_nat. rewrite Nat.add_0_r.
      destruct (Z.ltb_spec j (W * Z.of_nat (S n))); [reflexivity | nia].
    + rewrite (Hrow s j Hge), orb_false_l.
      rewrite Z.shiftl_spec by exact Hj.
      rewrite IH by lia.
      replace (j - W) with (j + (-1) * W) by lia.
      rewrite Z.div_add, Z.mod_add by lia.
      assert (1 <= j / W) by (apply Z.div_le_lower_bound; lia).
      replace (S s + Z.to_nat (j / W + -1))%nat
        with (s + Z.to_nat (j / W))%nat by lia.
      f_equal.
      destruct (Z.ltb_spec (j + -1 * W) (W * Z.of_nat n)),
               (Z.ltb_spec j (W * Z.of_nat (S n))); try reflexivity; nia.
Qed.

Lemma low_decomposition (f : FieldMeta) :
  bit_low f = W * (bit_low f / W) + bit_low f mod W
  /\ 0 <= bit_low f mod W < W.
Proof.
  split; [apply Z.div_mod; lia | apply Z.mod_pos_bound; lia].
Qed.

Lemma field_ok_range (f : FieldMeta) :
  field_ok f = true -> 0 <= bit_low f <= bit_high f.
Proof.
  unfold field_ok. rewrite !andb_true_iff. intros [[H1 H2] _]. lia.
Qed.

(** Bit [k] of an extracted value is bit [bit_low + k] of the row, up
    to the width of the field. *)
Lemma extract_bits (row : list Z) (f : FieldMeta) (k : Z) :
  word_sized W row -> field_ok f = true -> 0 <= k ->
  Z.testbit (extract W row f) k =
  (k <? width f) && row_bit W row (bit_low f + k).
Proof.
  intros Hrow Hf Hk. pose proof (field_ok_range f Hf) as Hr.
  destruct (low_decomposition f) as [Hd Hm].
  unfold extract, width, row_bit.
  rewrite Z.land_spec, Z.shiftr_spec, Z.testbit_ones_nonneg by lia.
  rewrite andb_comm.
  destruct (Z.ltb_spec k (bit_high f - bit_low f + 1)) as [Hlt|Hge];
    [|reflexivity].
  rewrite !andb_true_l.
  assert (Hs : 0 <= bit_low f / W) by (apply Z.div_pos; lia).
  assert (He : bit_low f / W <= bit_high f / W)
    by (apply Z.div_le_mono; lia).
  assert (Hh : bit_high f < W * (bit_high f / W + 1)).
  { pose proof (Z.div_mod (bit_high f) W ltac:(lia)).
    pose proof (Z.mod_pos_bound (bit_high f) W ltac:(lia)). lia. }
  rewrite gather_bits by (auto; lia).
  rewrite Z2Nat.id by lia.
  destruct (Z.ltb_spec (k + bit_low f mod W)
              (W * (bit_high f / W - bit_low f / W + 1))) as [_|Hbad];
    [|nia].
  rewrite andb_true_l.
  replace (bit_low f + k)
    with ((k + bit_low f mod W) + (bit_low f / W) * W) by lia.
  rewrite Z.div_add, Z.mod_add by lia.
  assert (0 <= (k + bit_low f mod W) / W) by (apply Z.div_pos; lia).
  f_equal. unfold word_at. f_equal. lia.
Qed.

Lemma extract_range (row : list Z) (f : FieldMeta) :
  field_ok f = true -> 0 <= extract W row f < 2 ^ width f.
Proof.
  intros Hf. pose proof (field_ok_range f Hf) as Hr.
  unfold extract. rewrite Z.land_ones by (unfold width; lia).
  apply Z.mod_pos_bound. apply Z.pow_pos_nonneg; unfold width; lia.
Qed.

(** Bit [b] of the part of a code deposited in word [i] is the bit of
    the code that belongs at position [W * i + b] of the row. *)
Lemma deposit_bits (f : FieldMeta) (code : Z) (i : nat) (b : Z) :
  field_ok f = true -> 0 <= b ->
  Z.testbit (deposit W f code i) b =
  (b <? W) && Z.testbit code (W * Z.of_nat i + b - bit_low f).
Proof.
  intros Hf Hb. pose proof (field_ok_range f Hf) as Hr.
  destruct (low_decomposition f) as [Hd Hm].
  unfold deposit.
  destruct (Z.ltb_spec (Z.of_nat i) (bit_low f / W)) as [Hlt|Hge].
  - rewrite Z.bits_0.
    destruct (Z.ltb_spec b W) as [HbW|]; [|reflexivity].
    rewrite Z.testbit_neg_r; [reflexivity|]. nia.
  - rewrite Z.land_spec, Z.shiftr_spec, Z.testbit_ones_nonneg by lia.
    rewrite andb_comm. destruct (Z.ltb_spec b W) as [HbW|]; [|reflexivity].
    rewrite !andb_true_l.
    rewrite Z.shiftl_spec by nia. f_equal. lia.
Qed.

Lemma fold_lor_bits (l : list Z) (b : Z) :
  Z.testbit (fold_right Z.lor 0 l) b = List.existsb (fun x => Z.testbit x b) l.
Proof.
  induction l as [|x l IH]; simpl; [apply Z.bits_0|].
  now rewrite Z.lor_spec, IH.
Qed.

Lemma pack_row_length (fields : list FieldMeta) (codes : list Z) :
  List.length (pack_row W fields codes) = words_per_row W fields.
Proof. unfold pack_row. now rewrite length_map, length_seq. Qed.

Lemma pack_row_bits (fields : list FieldMeta) (codes : list Z)
    (i : nat) (b : Z) :
  List.forallb field_ok fields = true ->
  (i < words_per_row W fields)%nat -> 0 <= b ->
  Z.testbit (word_at (pack_row W fields codes) i) b =
  (b <? W) && placed (combine fields codes) (W * Z.of_nat i + b).
Proof.
  intros Hok Hi Hb. unfold word_at, pack_row.
  set (F := fun i0 : nat => fold_right Z.lor 0 _).
  rewrite (nth_indep _ 0 (F O)) by now rewrite length_map, length_seq.
  rewrite map_nth, seq_nth by exact Hi. simpl Nat.add. unfold F.
  rewrite fold_lor_bits. unfold placed.
  assert (Hall : forall fc, In fc (combine fields codes) ->
                            field_ok (fst fc) = true).
  { intros [f c] Hin. apply in_combine_l in Hin.
    rewrite forallb_forall in Hok. now apply Hok. }
  induction (combine fields codes) as [|fc l IH]; simpl.
  - now rewrite andb_false_r.
  - rewrite deposit_bits by (auto; apply Hall; now left).
    rewrite IH by (intros; apply Hall; now right).
    now destruct (b <? W).
Qed.

Lemma pack_row_word_sized (fields : list FieldMeta) (codes : list Z) :
  List.forallb field_ok fields = true ->
  word_sized W (pack_row W fields codes).
Proof.
  intros Hok i j Hj.
  destruct (Nat.lt_ge_cases i (words_per_row W fields)) as [Hi|Hi].
  - rewrite pack_row_bits by (auto; lia).
    destruct (Z.ltb_spec j W); [lia | reflexivity].
  - unfold word_at. rewrite nth_overflow; [apply Z.bits_0|].
    now rewrite pack_row_length.
Qed.

Lemma max_bit_high_bound (fields : list FieldMeta) (f : FieldMeta) :
  In f fields -> bit_high f <= max_bit_high fields.
Proof.
  induction fields as [|g fields IH]; simpl; [tauto|].
  intros [->|Hin]; [lia|]. specialize (IH Hin). lia.
Qed.

Lemma max_bit_high_floor (fields : list FieldMeta) :
  -1 <= max_bit_high fields.
Proof. induction fields; simpl; lia. Qed.

(** A row is wide enough for every field. *)
Lemma words_per_row_bound (fields : list FieldMeta) (f : FieldMeta) :
  In f fields ->
  bit_high f < W * Z.of_nat (words_per_row W fields).
Proof.
  intros Hin. pose proof (max_bit_high_bound _ _ Hin) as Hb.
  pose proof (max_bit_high_floor fields) as Hfl.
  unfold words_per_row.
  set (m := max_bit_high fields) in *.
  replace (m + 1 + W - 1) with (m + W) by lia.
  assert (0 <= (m + W) / W) by (apply Z.div_pos; lia).
  rewrite Z2Nat.id by lia.
  pose proof (Z.div_mod (m + W) W ltac:(lia)).
  pose proof (Z.mod_pos_bound (m + W) W ltac:(lia)). lia.
Qed.

(** Bit [n] of a packed row, for a position [n] inside the row. *)
Lemma pack_row_row_bit (fields : list FieldMeta) (codes : list Z) (n : Z) :
  List.forallb field_ok fields = true ->
  0 <= n < W * Z.of_nat (words_per_row W fields) ->
  row_bit W (pack_row W fields codes) n = placed (combine fields codes) n.
Proof.
  intros Hok [Hn Hlt]. unfold row_bit.
  assert (0 <= n / W) by (apply Z.div_pos; lia).
  assert (n / W < Z.of_nat (words_per_row W fields))
    by (apply Z.div_lt_upper_bound; lia).
  pose proof (Z.mod_pos_bound n W ltac:(lia)).
  rewrite pack_row_bits by (auto; lia).
  rewrite Z2Nat.id by lia.
  destruct (Z.ltb_spec (n mod W) W); [|lia].
  rewrite andb_true_l. f_equal.
  pose proof (Z.div_mod n W ltac:(lia)). lia.
Qed.

End CodecBits.

(** ** The table codec: rows *)

Section CodecRows.

Import TableCodec.
Local Open Scope Z_scope.

Variable W : Z.
Hypothesis W_pos : 0 < W.

(** Inside the range of [g], a field disjoint from [g] places no bit. *)
Lemma disjoint_places_nothing (f g : FieldMeta) (c n : Z) :
  disjoint f g = true -> 0 <= c < 2 ^ width f ->
  bit_low g <= n <= bit_high g ->
  Z.testbit c (n - bit_low f) = false.
Proof.
  unfold disjoint. rewrite orb_true_iff, !Z.ltb_lt. intros [H|H] Hc Hn.
  - apply (testbit_small _ (width f)); [exact Hc | unfold width; lia].
  - apply Z.testbit_neg_r. lia.
Qed.

Lemma disjoint_sym (f g : FieldMeta) : disjoint f g = disjoint g f.
Proof. unfold disjoint. apply orb_comm. Qed.

Lemma placed_elsewhere (g : FieldMeta) (l : list (FieldMeta * Z)) (n : Z) :
  (forall fc, In fc l -> disjoint g (fst fc) = true /\ code_fits fc) ->
  bit_low g <= n <= bit_high g ->
  placed l n = false.
Proof.
  intros Hl Hn. induction l as [|[f c] l IH]; simpl; [reflexivity|].
  destruct (Hl (f, c) (or_introl eq_refl)) as [Hd Hc].
  rewrite (disjoint_places_nothing f g c n); auto.
  - apply IH. intros fc Hin. apply Hl. now right.
  - now rewrite disjoint_sym.
Qed.

(** Inside the range of a field, the only bits placed are its own. *)
Lemma placed_member (fields : list FieldMeta) (codes : list Z)
    (g : FieldMeta) (c n : Z) :
  pairwise_disjoint fields = true ->
  (forall fc, In fc (combine fields codes) -> code_fits fc) ->
  In (g, c) (combine fields codes) ->
  bit_low g <= n <= bit_high g ->
  placed (combine fields codes) n = Z.testbit c (n - bit_low g).
Proof.
  revert codes.
  induction fields as [|f fields IH]; intros codes Hpd Hfit Hin Hn;
    [destruct Hin|].
  destruct codes as [|c0 codes]; [destruct Hin|].
  simpl in Hpd. apply andb_true_iff in Hpd as [Hf Hpd].
  rewrite forallb_forall in Hf.
  simpl combine in *. unfold placed. cbn [existsb fst snd].
  fold (placed (combine fields codes) n).
  destruct Hin as [E|Hin].
  - inversion E; subst f c0.
    rewrite (placed_elsewhere g); [apply orb_false_r | | exact Hn].
    intros [f' c'] Hin'. split.
    + apply Hf. now apply in_combine_l in Hin'.
    + apply Hfit. now right.
  - rewrite (disjoint_places_nothing f g c0 n).
    + rewrite orb_false_l. apply IH; auto.
      intros fc Hfc. apply Hfit. now right.
    + apply Hf. now apply in_combine_l in Hin.
    + apply (Hfit (f, c0)). now left.
    + exact Hn.
Qed.

(** Extracting a field from the packed row gives its code back. *)
Lemma extract_pack_row (fields : list FieldMeta) (codes : list Z)
    (g : FieldMeta) (c : Z) :
  List.forallb field_ok fields = true ->
  pairwise_disjoint fields = true ->
  (forall fc, In fc (combine fields codes) -> code_fits fc) ->
  In (g, c) (combine fields codes) ->
  extract W (pack_row W fields codes) g = c.
Proof.
  intros Hok Hpd Hfit Hin.
  assert (Hg : In g fields) by now apply in_combine_l in Hin.
  assert (Hgok : field_ok g = true)
    by (rewrite forallb_forall in Hok; now apply Hok).
  pose proof (field_ok_range g Hgok) as Hr.
  pose proof (words_per_row_bound W W_pos fields g Hg) as Hwide.
  apply Z.bits_inj'. intros k Hk.
  rewrite (extract_bits W W_pos) by (auto using pack_row_word_sized).
  destruct (Z.ltb_spec k (width g)) as [Hlt|Hge].
  - unfold width in Hlt.
    rewrite (pack_row_row_bit W W_pos) by (auto; lia).
    rewrite (placed_member fields codes g c) by (auto; lia).
    rewrite andb_true_l. f_equal. lia.
  - symmetry. apply (testbit_small _ (width g)); [|exact Hge].
    apply (Hfit (g, c) Hin).
Qed.

Lemma combine_map_self {A B : Type} (F : A -> B) (l : list A) :
  combine l (List.map F l) = List.map (fun x => (x, F x)) l.
Proof. induction l as [|x l IH]; simpl; [reflexivity | now rewrite IH]. Qed.

(** The bits that the extracted fields place at [n] are the bit of the
    row at [n], when a field covers [n]. *)
Lemma placed_extracted (row : list Z) (fields : list FieldMeta) (n : Z) :
  word_sized W row ->
  List.forallb field_ok fields = true ->
  placed (List.map (fun f => (f, extract W row f)) fields) n
  = covered fields n && row_bit W row n.
Proof.
  intros Hrow Hok. unfold placed, covered.
  induction fields as [|f fields IH]; simpl; [reflexivity|].
  simpl in Hok. apply andb_true_iff in Hok as [Hf Hok].
  rewrite IH by exact Hok. clear IH.
  pose proof (field_ok_range f Hf) as Hr.
  rewrite andb_orb_distrib_l. f_equal.
  destruct (Z.leb_spec (bit_low f) n) as [Hlo|Hlo].
  - rewrite (extract_bits W W_pos) by (auto; lia).
    replace (bit_low f + (n - bit_low f)) with n by lia.
    unfold width.
    destruct (Z.ltb_spec (n - bit_low f) (bit_high f - bit_low f + 1)),
             (Z.leb_spec n (bit_high f)); try reflexivity; lia.
  - rewrite Z.testbit_neg_r by lia. reflexivity.
Qed.

(** Packing the fields extracted from a well-formed row gives the row
    back. *)
Lemma pack_row_extract (fields : list FieldMeta) (row : list Z) :
  List.forallb field_ok fields = true ->
  row_ok W fields row = true ->
  pack_row W fields (List.map (extract W row) fields) = row.
Proof.
  intros Hok Hrow. unfold row_ok in Hrow.
  rewrite !andb_true_iff in Hrow. destruct Hrow as [[[Hlen Hrange] Hcov] _].
  apply Nat.eqb_eq in Hlen.
  pose proof (word_sized_of_range W row Hrange) as Hsized.
  apply (nth_ext _ _ 0 0); [now rewrite pack_row_length|].
  rewrite pack_row_length. intros i Hi.
  apply Z.bits_inj'. intros b Hb.
  change (Z.testbit
            (word_at (pack_row W fields (List.map (extract W row) fields)) i) b
          = Z.testbit (word_at row i) b).
  rewrite (pack_row_bits W W_pos) by auto.
  destruct (Z.ltb_spec b W) as [HbW|HbW];
    [|now rewrite (Hsized i b HbW)].
  rewrite andb_true_l, combine_map_self, placed_extracted by auto.
  set (n := W * Z.of_nat i + b).
  assert (Hn : 0 <= n) by (unfold n; nia).
  assert (Hrb : row_bit W row n = Z.testbit (word_at row i) b).
  { unfold row_bit, n.
    replace (W * Z.of_nat i + b) with (b + Z.of_nat i * W) by lia.
    rewrite Z.div_add, Z.mod_add by lia.
    rewrite Z.div_small, Z.mod_small by lia.
    simpl Z.add. now rewrite Nat2Z.id. }
  rewrite forallb_forall in Hcov.
  specialize (Hcov (Z.to_nat n)). rewrite Z2Nat.id in Hcov by exact Hn.
  rewrite <- Hrb.
  destruct (row_bit W row n) eqn:Ebit; [|apply andb_false_r].
  assert (Hin : In (Z.to_nat n) (seq 0 (words_per_row W fields * Z.to_nat W))).
  { apply in_seq. split; [lia|]. simpl Nat.add. unfold n. nia. }
  apply Hcov in Hin. simpl in Hin. now rewrite Hin.
Qed.

End CodecRows.

(** ** The table codec: elements *)

Section CodecCells.

Import TableCodec.
Local Open Scope Z_scope.

Lemma field_ok_width (f : FieldMeta) : field_ok f = true -> 1 <= width f.
Proof. intros H. pose proof (field_ok_range f H). unfold width. lia. Qed.

Lemma index_of_nth_error (s : string) (ls : list string) (i : nat) :
  index_of s ls = Some i -> nth_error ls i = Some s.
Proof.
  revert i. induction ls as [|x ls IH]; intros i; simpl; [discriminate|].
  destruct (String.eqb_spec s x) as [->|Hne].
  - now intros [= <-].
  - destruct (index_of s ls) as [j|]; [|discriminate].
    intros [= <-]. simpl. now apply IH.
Qed.

(** A fitting element is encoded, its code fits the field and decodes
    to the element. *)
Lemma encode_fitting (f : FieldMeta) (c : cell) :
  field_ok f = true -> cell_fits f c = true ->
  encode f c = Done (code_of f c)
  /\ 0 <= code_of f c < 2 ^ width f
  /\ decode f (code_of f c) = Done c.
Proof.
  intros Hf Hc. pose proof (field_ok_width f Hf) as Hw.
  assert (Hp : 0 < 2 ^ width f) by (apply Z.pow_pos_nonneg; lia).
  assert (Hp' : 0 < 2 ^ (width f - 1)) by (apply Z.pow_pos_nonneg; lia).
  assert (E : 2 ^ width f = 2 * 2 ^ (width f - 1)).
  { replace (width f) with (Z.succ (width f - 1)) at 1 by lia.
    apply Z.pow_succ_r. lia. }
  unfold code_of, cell_fits, encode, decode in *.
  destruct (field_subtype f), c as [v|s]; try discriminate.
  - rewrite Hc. apply andb_true_iff in Hc as [H1 H2].
    apply Z.leb_le in H1. apply Z.ltb_lt in H2. auto.
  - rewrite Hc. apply andb_true_iff in Hc as [H1 H2].
    apply Z.leb_le in H1. apply Z.ltb_lt in H2.
    pose proof (Z.mod_pos_bound v (2 ^ width f) Hp) as Hm.
    split; [reflexivity|]. split; [exact Hm|].
    rewrite testbit_top by (auto; lia).
    destruct (Z.lt_ge_cases v 0) as [Hneg|Hpos].
    + assert (Ev : v mod 2 ^ width f = v + 2 ^ width f).
      { symmetry. apply Z.mod_unique with (q := -1); lia. }
      rewrite Ev.
      destruct (Z.leb_spec (2 ^ (width f - 1)) (v + 2 ^ width f)); [|lia].
      do 2 f_equal. lia.
    + rewrite Z.mod_small by lia.
      destruct (Z.leb_spec (2 ^ (width f - 1)) v); [lia | reflexivity].
  - destruct (enum_labels f) as [ls|]; [|discriminate].
    destruct (index_of s ls) as [i|] eqn:Ei; [|discriminate].
    rewrite Hc. apply Z.ltb_lt in Hc.
    split; [reflexivity|]. split; [lia|].
    rewrite Nat2Z.id. now rewrite (index_of_nth_error _ _ _ Ei).
Qed.

(** A canonical code that fits the field is decoded, and the element
    is encoded to the code. *)
Lemma decode_canonical (f : FieldMeta) (v : Z) :
  field_ok f = true -> 0 <= v < 2 ^ width f -> code_ok f v = true ->
  decode f v = Done (cell_of f v)
  /\ encode f (cell_of f v) = Done v.
Proof.
  intros Hf Hv Hc. pose proof (field_ok_width f Hf) as Hw.
  assert (Hp' : 0 < 2 ^ (width f - 1)) by (apply Z.pow_pos_nonneg; lia).
  assert (E : 2 ^ width f = 2 * 2 ^ (width f - 1)).
  { replace (width f) with (Z.succ (width f - 1)) at 1 by lia.
    apply Z.pow_succ_r. lia. }
  unfold cell_of, code_ok, encode, decode in *.
  destruct (field_subtype f).
  - split; [reflexivity|].
    destruct (Z.leb_spec 0 v), (Z.ltb_spec v (2 ^ width f));
      try lia; reflexivity.
  - split; [reflexivity|].
    rewrite testbit_top by (auto; lia).
    destruct (Z.leb_spec (2 ^ (width f - 1)) v) as [Hhi|Hlo].
    + destruct (Z.leb_spec (- 2 ^ (width f - 1)) (v - 2 ^ width f)); [|lia].
      destruct (Z.ltb_spec (v - 2 ^ width f) (2 ^ (width f - 1))); [|lia].
      simpl andb. cbv iota. f_equal.
      symmetry. apply Z.mod_unique with (q := -1); lia.
    + destruct (Z.leb_spec (- 2 ^ (width f - 1)) v); [|lia].
      destruct (Z.ltb_spec v (2 ^ (width f - 1))); [|lia].
      simpl andb. cbv iota. f_equal. apply Z.mod_small. lia.
  - destruct (enum_labels f) as [ls|]; [|discriminate].
    destruct (nth_error ls (Z.to_nat v)) as [l|]; [|discriminate].
    split; [reflexivity|].
    destruct (index_of l ls) as [i|]; [|discriminate].
    apply Z.eqb_eq in Hc. subst v.
    destruct (Z.ltb_spec (Z.of_nat i) (2 ^ width f)); [reflexivity | lia].
Qed.

(** *** Traversals that succeed *)

Lemma traverse_map {A B C : Type} (f : B -> outcome C) (h : A -> B)
    (k : A -> C) (l : list A) :
  (forall x, In x l -> f (h x) = Done (k x)) ->
  traverse f (List.map h l) = Done (List.map k l).
Proof.
  induction l as [|x l IH]; intros H; simpl; [reflexivity|].
  rewrite (H x (or_introl eq_refl)). simpl.
  rewrite IH by (intros; apply H; now right). reflexivity.
Qed.

Lemma traverse_all {A B : Type} (f : A -> outcome B) (k : A -> B)
    (l : list A) :
  (forall x, In x l -> f x = Done (k x)) ->
  traverse f l = Done (List.map k l).
Proof.
  intros H. rewrite <- (map_id l) at 1. now apply traverse_map.
Qed.

Lemma traverse_combine {A B : Type} (f : A -> outcome B)
    (l : list A) (l' : list B) :
  List.length l = List.length l' ->
  (forall x y, In (x, y) (combine l l') -> f x = Done y) ->
  traverse f l = Done l'.
Proof.
  revert l'. induction l as [|x l IH]; intros [|y l'] Hlen H;
    simpl in *; try discriminate; [reflexivity|].
  rewrite (H x y (or_introl eq_refl)). simpl.
  rewrite (IH l') by (auto; lia). reflexivity.
Qed.

Lemma traverse_indexed {A B : Type} (f : A -> outcome B) (G : nat -> A)
    (d : B) (col : list B) (s : nat) :
  (forall i, (i < List.length col)%nat -> f (G (s + i)%nat) = Done (nth i col d)) ->
  traverse f (List.map G (seq s (List.length col))) = Done col.
Proof.
  revert s. induction col as [|c col IH]; intros s H; simpl; [reflexivity|].
  pose proof (H O ltac:(simpl; lia)) as H0.
  rewrite Nat.add_0_r in H0. simpl in H0. rewrite H0. simpl.
  rewrite IH; [reflexivity|].
  intros i Hi. specialize (H (S i) ltac:(simpl; lia)).
  simpl in H. now rewrite Nat.add_succ_r in H.
Qed.

Lemma nth_map_inside {A B : Type} (g : A -> B) (l : list A) (i : nat)
    (d : A) (d' : B) :
  (i < List.length l)%nat -> nth i (List.map g l) d' = g (nth i l d).
Proof.
  intros Hi. rewrite (nth_indep _ d' (g d)) by now rewrite length_map.
  apply map_nth.
Qed.

Lemma map_seq_nth {A : Type} (G : nat -> A) (l : list A) (d : A) :
  (forall i, (i < List.length l)%nat -> G i = nth i l d) ->
  List.map G (seq 0 (List.length l)) = l.
Proof.
  intros H. apply (nth_ext _ _ (G O) d).
  - now rewrite length_map, length_seq.
  - rewrite length_map, length_seq. intros i Hi.
    rewrite map_nth, seq_nth by exact Hi. now apply H.
Qed.

Lemma combine_map_combine {A B C : Type} (K : A * B -> C)
    (l : list A) (l' : list B) :
  combine l (List.map K (combine l l'))
  = List.map (fun p => (fst p, K p)) (combine l l').
Proof.
  revert l'. induction l as [|x l IH]; intros [|y l']; simpl;
    try reflexivity.
  now rewrite IH.
Qed.

End CodecCells.

(** ** The table codec: round trips *)

Section CodecRoundTrip.

Import TableCodec.
Local Open Scope Z_scope.

Variable W : Z.
Variable fields : list FieldMeta.
Hypothesis metadata_valid : valid_metadata W fields = true.

Lemma valid_W : 0 < W.
Proof.
  unfold valid_metadata in metadata_valid.
  rewrite !andb_true_iff in metadata_valid.
  destruct metadata_valid as [[[H _] _] _]. now apply Z.ltb_lt.
Qed.

Lemma valid_fields_ok : List.forallb field_ok fields = true.
Proof.
  unfold valid_metadata in metadata_valid.
  rewrite !andb_true_iff in metadata_valid. tauto.
Qed.

Lemma valid_disjoint : pairwise_disjoint fields = true.
Proof.
  unfold valid_metadata in metadata_valid.
  rewrite !andb_true_iff in metadata_valid. tauto.
Qed.

Lemma valid_nonempty : fields <> [].
Proof.
  unfold valid_metadata in metadata_valid.
  rewrite !andb_true_iff in metadata_valid.
  destruct metadata_valid as [[[_ H] _] _].
  intros ->. discriminate.
Qed.

Lemma valid_field (f : FieldMeta) : In f fields -> field_ok f = true.
Proof.
  pose proof valid_fields_ok as H. rewrite forallb_forall in H. apply H.
Qed.

Section Columns.

Variable columns : list (list cell).
Hypothesis columns_valid : columns_ok fields columns = true.

Lemma columns_length : List.length fields = List.length columns.
Proof.
  unfold columns_ok in columns_valid.
  rewrite !andb_true_iff in columns_valid.
  destruct columns_valid as [[H _] _]. apply Nat.eqb_eq in H. lia.
Qed.

Lemma column_facts (f : FieldMeta) (col : list cell) :
  In (f, col) (combine fields columns) ->
  List.length col = row_count columns
  /\ forall c, In c col -> cell_fits f c = true.
Proof.
  intros Hin. unfold columns_ok in columns_valid.
  rewrite !andb_true_iff in columns_valid.
  destruct columns_valid as [[_ Hlen] Hfit].
  rewrite forallb_forall in Hlen, Hfit. split.
  - apply Nat.eqb_eq. apply Hlen. now apply in_combine_r in Hin.
  - specialize (Hfit (f, col) Hin). simpl in Hfit.
    rewrite forallb_forall in Hfit. exact Hfit.
Qed.

Lemma pack_columns : pack W fields columns = Done (packed_rows W fields columns).
Proof.
  unfold pack. pose proof columns_valid as Hv. unfold columns_ok in Hv.
  rewrite !andb_true_iff in Hv. destruct Hv as [[H1 H2] _].
  rewrite H1, H2. simpl andb. cbv iota.
  rewrite (traverse_all _
             (fun fc => List.map (code_of (fst fc)) (snd fc))).
  - reflexivity.
  - intros [f col] Hin. simpl.
    destruct (column_facts f col Hin) as [_ Hfit].
    apply traverse_all. intros c Hc.
    apply encode_fitting; [|now apply Hfit].
    apply valid_field. now apply in_combine_l in Hin.
Qed.

(** The codes of row [i], paired with their fields. *)
Lemma row_codes (i : nat) :
  combine fields (List.map (fun c => nth i c 0) (column_codes fields columns))
  = List.map
      (fun fc => (fst fc, nth i (List.map (code_of (fst fc)) (snd fc)) 0))
      (combine fields columns).
Proof.
  unfold column_codes. rewrite map_map.
  apply (combine_map_combine
           (fun fc => nth i (List.map (code_of (fst fc)) (snd fc)) 0)).
Qed.

Lemma unpack_packed_column (f : FieldMeta) (col : list cell) :
  In (f, col) (combine fields columns) ->
  traverse (fun row => decode f (extract W row f)) (packed_rows W fields columns)
  = Done col.
Proof.
  intros Hin. destruct (column_facts f col Hin) as [Hlen Hfit].
  assert (Hf : field_ok f = true)
    by (apply valid_field; now apply in_combine_l in Hin).
  unfold packed_rows. rewrite <- Hlen.
  apply (traverse_indexed _ _ (Num 0)). intros i Hi. simpl Nat.add.
  rewrite (extract_pack_row W valid_W fields _ f
             (code_of f (nth i col (Num 0)))).
  - apply encode_fitting; [exact Hf|]. apply Hfit. now apply nth_In.
  - exact valid_fields_ok.
  - exact valid_disjoint.
  - intros fc. rewrite row_codes, in_map_iff.
    intros [[f' col'] [<- Hin']]. unfold code_fits. simpl.
    destruct (column_facts f' col' Hin') as [Hlen' Hfit'].
    rewrite (nth_map_inside _ _ _ (Num 0)) by lia.
    apply encode_fitting.
    + apply valid_field. now apply in_combine_l in Hin'.
    + apply Hfit'. apply nth_In. lia.
  - rewrite row_codes, in_map_iff. exists (f, col). split; [|exact Hin].
    simpl. f_equal. now apply nth_map_inside.
Qed.

(** Packing a Column Array and unpacking the result gives it back. *)
Lemma unpack_pack :
  and_then (pack W fields columns) (unpack W fields) = Done columns.
Proof.
  rewrite pack_columns. simpl and_then. unfold unpack.
  replace (List.forallb _ (packed_rows W fields columns)) with true.
  - apply traverse_combine; [exact columns_length|].
    intros f col. apply unpack_packed_column.
  - symmetry. apply forallb_forall. intros row. unfold packed_rows.
    rewrite in_map_iff. intros [i [<- _]].
    rewrite pack_row_length. apply Nat.eqb_refl.
Qed.

End Columns.

Section Words.

Variable words : list (list Z).
Hypothesis words_valid : words_ok W fields words = true.

Lemma row_valid (row : list Z) : In row words -> row_ok W fields row = true.
Proof.
  unfold words_ok in words_valid. rewrite forallb_forall in words_valid.
  apply words_valid.
Qed.

Lemma row_field_code (row : list Z) (f : FieldMeta) :
  In row words -> In f fields ->
  decode f (extract W row f) = Done (cell_of f (extract W row f))
  /\ encode f (cell_of f (extract W row f)) = Done (extract W row f).
Proof.
  intros Hrow Hf. pose proof (row_valid row Hrow) as Hok.
  unfold row_ok in Hok. rewrite !andb_true_iff in Hok.
  destruct Hok as [_ Hcodes]. rewrite forallb_forall in Hcodes.
  apply decode_canonical.
  - now apply valid_field.
  - apply extract_range. now apply valid_field.
  - now apply Hcodes.
Qed.

Lemma unpack_words : unpack W fields words = Done (unpacked_columns W fields words).
Proof.
  unfold unpack.
  replace (List.forallb _ words) with true.
  - apply traverse_all. intros f Hf.
    apply traverse_all. intros row Hrow.
    now apply row_field_code.
  - symmetry. apply forallb_forall. intros row Hrow.
    pose proof (row_valid row Hrow) as Hok.
    unfold row_ok in Hok. rewrite !andb_true_iff in Hok. tauto.
Qed.

Lemma unpacked_row_count :
  row_count (unpacked_columns W fields words) = List.length words.
Proof.
  pose proof valid_nonempty as Hne. unfold unpacked_columns.
  destruct fields as [|f fs]; [congruence|]. simpl.
  apply length_map.
Qed.

(** Unpacking a well-formed word array and packing the result gives it
    back. *)
Lemma pack_unpack :
  and_then (unpack W fields words) (pack W fields) = Done words.
Proof.
  rewrite unpack_words. simpl and_then. unfold pack.
  rewrite unpacked_row_count.
  replace (_ && _)%bool with true.
  - unfold unpacked_columns at 1. rewrite combine_map_self.
    rewrite (traverse_map _ _
               (fun f => List.map (fun row => extract W row f) words)).
    + simpl and_then. f_equal.
      apply (map_seq_nth _ _ []). intros i Hi.
      rewrite map_map.
      rewrite (map_ext _ (extract W (nth i words []))).
      * apply (pack_row_extract W valid_W).
        -- exact valid_fields_ok.
        -- apply row_valid. now apply nth_In.
      * intros f.
        now apply (nth_map_inside (fun row => extract W row f)).
    + intros f Hf. simpl.
      apply traverse_map. intros row Hrow. now apply row_field_code.
  - symmetry. apply andb_true_iff. split.
    + apply Nat.eqb_eq. unfold unpacked_columns. apply length_map.
    + apply forallb_forall. intros col. unfold unpacked_columns.
      rewrite in_map_iff. intros [f [<- _]].
      rewrite length_map. apply Nat.eqb_refl.
Qed.

End Words.

End CodecRoundTrip.

(** A word array that satisfies [words_ok] is sized per the metadata. *)
Lemma words_ok_sized (W : Z) (fields : list TableCodec.FieldMeta)
    (words : list (list Z)) :
  TableCodec.words_ok W fields words = true ->
  TableCodec.words_sized W fields words = true.
Proof.
  unfold TableCodec.words_ok, TableCodec.words_sized.
  rewrite !forallb_forall. intros H row Hin. specialize (H row Hin).
  unfold TableCodec.row_ok in H. unfold TableCodec.row_sized.
  rewrite !andb_true_iff in H. rewrite andb_true_iff. tauto.
Qed.

(** C2, as amended: for every valid Field Metadata set, with pairwise
    non-overlapping bit ranges, packing a Column Array whose elements
    respect the width and subtype of their fields and unpacking the
    result gives the Column Array back; and unpacking a word array that
    is sized per the metadata, has no bit set outside the fields' bit
    ranges and holds, for every enumerated field, a code that is the
    first index of a label, and packing the result gives the word array
    back. *)
Theorem table_codec_round_trip (W : Z) (fields : list TableCodec.FieldMeta) :
  TableCodec.valid_metadata W fields = true ->
  (forall columns,
      TableCodec.columns_ok fields columns = true ->
      TableCodec.and_then (TableCodec.pack W fields columns)
                          (TableCodec.unpack W fields)
      = TableCodec.Done columns)
  /\ (forall words,
         TableCodec.words_ok W fields words = true ->
         TableCodec.and_then (TableCodec.unpack W fields words)
                             (TableCodec.pack W fields)
         = TableCodec.Done words).
Proof.
  intros Hv. split.
  - intros columns. now apply unpack_pack.
  - intros words. now apply pack_unpack.
Qed.

Lemma table_codec_round_trip_witness :
  TableCodec.and_then
    (TableCodec.pack 32 TableCodec.table_fields TableCodec.table_unpacked_data)
    (TableCodec.unpack 32 TableCodec.table_fields)
  = TableCodec.Done TableCodec.table_unpacked_data
  /\ TableCodec.and_then
       (TableCodec.unpack 32 TableCodec.table_fields TableCodec.table_data_1)
       (TableCodec.pack 32 TableCodec.table_fields)
     = TableCodec.Done TableCodec.table_data_1.
Proof.
  destruct (table_codec_round_trip 32 TableCodec.table_fields) as [H1 H2];
    [vm_compute; reflexivity|].
  split; [apply H1 | apply H2]; vm_compute; reflexivity.
Defined.

(** C2, as stated, fails for word arrays: with two fields at bits 0-3
    and 8-11 the one-word row [501] is sized per the metadata, has bits
    4 to 7 set outside both ranges, and comes back as [261]. *)
Lemma sized_words_not_restored :
  let fields := [TableCodec.uint_field "X" 0 3; TableCodec.uint_field "Y" 8 11] in
  TableCodec.valid_metadata 32 fields = true
  /\ TableCodec.words_sized 32 fields [[501%Z]] = true
  /\ TableCodec.and_then (TableCodec.unpack 32 fields [[501%Z]])
                         (TableCodec.pack 32 fields)
     = TableCodec.Done [[261%Z]]
  /\ TableCodec.and_then (TableCodec.unpack 32 fields [[501%Z]])
                         (TableCodec.pack 32 fields)
     <> TableCodec.Done [[501%Z]].
Proof.
  cbv zeta. split; [vm_compute; reflexivity|].
  split; [vm_compute; reflexivity|].
  split; [vm_compute; reflexivity|].
  vm_compute. discriminate.
Qed.

(** ** The table codec: the two layouts the specification describes *)

Section CodecLayouts.

Import TableCodec.
Local Open Scope Z_scope.

Variable W : Z.
Hypothesis W_pos : 0 < W.

(** A field inside one word: shift and mask. *)
Lemma extract_one_word (row : list Z) (f : FieldMeta) :
  bit_high f / W = bit_low f / W ->
  extract W row f =
  Z.land (Z.shiftr (word_at row (Z.to_nat (bit_low f / W))) (bit_low f mod W))
         (Z.ones (width f)).
Proof.
  intros E. unfold extract. rewrite E.
  replace (bit_low f / W - bit_low f / W + 1) with 1 by lia.
  simpl gather. now rewrite Z.shiftl_0_l, Z.lor_0_r.
Qed.

(** A field across two consecutive words: the high bits of the first
    combined with the low bits of the second, then masked. *)
Lemma extract_two_words (row : list Z) (f : FieldMeta) :
  0 <= bit_low f ->
  bit_high f / W = bit_low f / W + 1 ->
  extract W row f =
  Z.land
    (Z.lor (Z.shiftr (word_at row (Z.to_nat (bit_low f / W))) (bit_low f mod W))
           (Z.shiftl (word_at row (Z.to_nat (bit_high f / W)))
                     (W - bit_low f mod W)))
    (Z.ones (width f)).
Proof.
  intros Hlow E. unfold extract. rewrite E.
  replace (bit_low f / W + 1 - bit_low f / W + 1) with 2 by lia.
  pose proof (Z.mod_pos_bound (bit_low f) W W_pos) as Hm.
  assert (Hs : 0 <= bit_low f / W) by (apply Z.div_pos; lia).
  change (Z.to_nat 2) with 2%nat. simpl gather.
  rewrite Z.shiftl_0_l, Z.lor_0_r, Z.shiftr_lor.
  rewrite Z.shiftr_shiftl_l by lia.
  replace (S (Z.to_nat (bit_low f / W))) with (Z.to_nat (bit_low f / W + 1))
    by lia.
  reflexivity.
Qed.

(** The word of [bit_low] receives the code shifted to its offset. *)
Lemma deposit_start_word (f : FieldMeta) (code : Z) :
  0 <= bit_low f ->
  deposit W f code (Z.to_nat (bit_low f / W)) =
  Z.land (Z.shiftl code (bit_low f mod W)) (Z.ones W).
Proof.
  intros Hlow. unfold deposit.
  assert (Hs : 0 <= bit_low f / W) by (apply Z.div_pos; lia).
  rewrite Z2Nat.id by exact Hs.
  rewrite Z.ltb_irrefl, Z.sub_diag, Z.mul_0_r. now rewrite Z.shiftr_0_r.
Qed.

(** The next word receives the bits of the code that did not fit. *)
Lemma deposit_next_word (f : FieldMeta) (code : Z) :
  0 <= bit_low f ->
  deposit W f code (Z.to_nat (bit_low f / W + 1)) =
  Z.land (Z.shiftr code (W - bit_low f mod W)) (Z.ones W).
Proof.
  intros Hlow. unfold deposit.
  assert (Hs : 0 <= bit_low f / W) by (apply Z.div_pos; lia).
  pose proof (Z.mod_pos_bound (bit_low f) W W_pos) as Hm.
  rewrite Z2Nat.id by lia.
  destruct (Z.ltb_spec (bit_low f / W + 1) (bit_low f / W)); [lia|].
  replace (W * (bit_low f / W + 1 - bit_low f / W)) with W by lia.
  now rewrite Z.shiftr_shiftl_r by lia.
Qed.

End CodecLayouts.

(** The examples of the specification and the table of the fixtures. *)

Example unpack_fixture_table :
  TableCodec.unpack 32 TableCodec.table_fields TableCodec.table_data_1
  = TableCodec.Done TableCodec.table_unpacked_data.
Proof. vm_compute. reflexivity. Qed.

Example pack_fixture_table :
  TableCodec.pack 32 TableCodec.table_fields TableCodec.table_unpacked_data
  = TableCodec.Done TableCodec.table_data_1.
Proof. vm_compute. reflexivity. Qed.

Example extract_trigger_code :
  TableCodec.extract 32 [0x00060000%Z]
    (TableCodec.mkField "TRIGGER" 16 19 TableCodec.Enum
       (Some TableCodec.seq_labels) None) = 6%Z
  /\ TableCodec.decode
       (TableCodec.mkField "TRIGGER" 16 19 TableCodec.Enum
          (Some TableCodec.seq_labels) None) 6
     = TableCodec.Done (TableCodec.Label "BITC=1").
Proof. split; vm_compute; reflexivity. Qed.

Example field_across_two_words :
  TableCodec.extract 32 [0xA0000000%Z; 0x0000000B%Z]
    (TableCodec.uint_field "X" 28 35) = 0xBA%Z
  /\ TableCodec.pack_row 32 [TableCodec.uint_field "X" 28 35] [0xBA%Z]
     = [0xA0000000%Z; 0x0000000B%Z].
Proof. split; vm_compute; reflexivity. Qed.

(** Why the word round trip needs rows with no bit outside the fields'
    ranges and with canonical codes: the columns hold the fields only,
    so a stray bit is not restored, and a label listed twice is packed
    to its first index. *)
Example uncovered_bit_not_restored :
  let fields := [TableCodec.uint_field "X" 0 3] in
  TableCodec.row_ok 32 fields [16%Z] = false
  /\ TableCodec.and_then (TableCodec.unpack 32 fields [[16%Z]])
                         (TableCodec.pack 32 fields)
     = TableCodec.Done [[0%Z]].
Proof. split; vm_compute; reflexivity. Qed.

Example repeated_label_not_restored :
  let fields :=
    [TableCodec.mkField "E" 0 3 TableCodec.Enum (Some ["A"; "B"; "A"]) None] in
  TableCodec.row_ok 32 fields [2%Z] = false
  /\ TableCodec.and_then (TableCodec.unpack 32 fields [[2%Z]])
                         (TableCodec.pack 32 fields)
     = TableCodec.Done [[0%Z]].
Proof. split; vm_compute; reflexivity. Qed.

(** * Further properties of the name classes *)

(** ** More on splitting and suffixes *)

Lemma split_app_separator (sep : ascii) (s t : string) :
  PyStr.split sep (s ++ String sep t)
  = (PyStr.split sep s ++ PyStr.split sep t)%list.
Proof.
  induction s as [|c s IH]; simpl.
  - now rewrite Ascii.eqb_refl.
  - destruct (Ascii.eqb c sep); rewrite IH; [reflexivity|].
    pose proof (split_not_nil sep s) as Hne.
    destruct (PyStr.split sep s); [congruence | reflexivity].
Qed.

Lemma split_without_separator (sep : ascii) (s : string) :
  PyStr.existsb (fun c => Ascii.eqb c sep) s = false ->
  PyStr.split sep s = [s].
Proof.
  induction s as [|c s IH]; simpl; [reflexivity|].
  rewrite orb_false_iff. intros [Hc Hs]. now rewrite Hc, IH.
Qed.

Lemma split_map (f : ascii -> ascii) (sep : ascii) (s : string) :
  (forall c, Ascii.eqb (f c) sep = Ascii.eqb c sep) ->
  PyStr.split sep (PyStr.map f s) = List.map (PyStr.map f) (PyStr.split sep s).
Proof.
  intros Hf. induction s as [|c s IH]; simpl; [reflexivity|].
  rewrite Hf, IH. destruct (Ascii.eqb c sep); [reflexivity|].
  pose proof (split_not_nil sep s) as Hne.
  destruct (PyStr.split sep s); [congruence | reflexivity].
Qed.

Lemma last_map {A B : Type} (g : A -> B) (l : list A) (d : A) :
  List.last (List.map g l) (g d) = g (List.last l d).
Proof.
  induction l as [|x l IH]; [reflexivity|].
  destruct l; [reflexivity | exact IH].
Qed.

Lemma final_segment_map (f : ascii -> ascii) (name : string) :
  (forall c, Ascii.eqb (f c) ":" = Ascii.eqb c ":") ->
  final_segment (PyStr.map f name) = PyStr.map f (final_segment name).
Proof.
  intros Hf. unfold final_segment. rewrite split_map by exact Hf.
  apply (last_map (PyStr.map f) _ EmptyString).
Qed.

Lemma final_segment_app (p s : string) :
  PyStr.existsb (fun c => Ascii.eqb c ":") s = false ->
  final_segment (p ++ String ":" s) = s.
Proof.
  intros Hs. unfold final_segment.
  rewrite split_app_separator, (split_without_separator _ _ Hs).
  apply last_last.
Qed.

Lemma final_segment_without_colon (s : string) :
  PyStr.existsb (fun c => Ascii.eqb c ":") s = false ->
  final_segment s = s.
Proof.
  intros Hs. unfold final_segment.
  now rewrite (split_without_separator _ _ Hs).
Qed.

Lemma substring_all (s : string) : substring 0 (String.length s) s = s.
Proof. induction s as [|c s IH]; simpl; [reflexivity | now rewrite IH]. Qed.

Lemma substring_after (p s : string) :
  substring (String.length p) (String.length s) (p ++ s) = s.
Proof. induction p as [|c p IH]; simpl; [apply substring_all | exact IH]. Qed.

Lemma length_append (s t : string) :
  String.length (s ++ t) = (String.length s + String.length t)%nat.
Proof. induction s as [|c s IH]; simpl; [reflexivity | now rewrite IH]. Qed.

Lemma endswith_append (p suffix : string) :
  PyStr.endswith suffix (p ++ suffix) = true.
Proof.
  unfold PyStr.endswith. rewrite length_append.
  replace (String.length p + String.length suffix - String.length suffix)%nat
    with (String.length p) by lia.
  rewrite substring_after, String.eqb_refl.
  apply andb_true_iff. split; [apply Nat.leb_le; lia | reflexivity].
Qed.

Lemma existsb_append (p : ascii -> bool) (s t : string) :
  PyStr.existsb p (s ++ t) = PyStr.existsb p s || PyStr.existsb p t.
Proof.
  induction s as [|c s IH]; simpl; [reflexivity|].
  now rewrite IH, orb_assoc.
Qed.

Lemma map_append (f : ascii -> ascii) (s t : string) :
  PyStr.map f (s ++ t) = PyStr.map f s ++ PyStr.map f t.
Proof. induction s as [|c s IH]; simpl; [reflexivity | now rewrite IH]. Qed.

Lemma length_map_string (f : ascii -> ascii) (s : string) :
  String.length (PyStr.map f s) = String.length s.
Proof. induction s as [|c s IH]; simpl; [reflexivity | now rewrite IH]. Qed.

Lemma replace_removes (a b : ascii) (s : string) :
  Ascii.eqb b a = false ->
  PyStr.existsb (fun c => Ascii.eqb c a) (PyStr.replace a b s) = false.
Proof.
  intros Hab. unfold PyStr.replace.
  induction s as [|c s IH]; simpl; [reflexivity|].
  rewrite IH, orb_false_r.
  destruct (Ascii.eqb c a) eqn:E; [exact Hab | exact E].
Qed.

Lemma suffix_has_colon (p : string) :
  PyStr.existsb (fun c => Ascii.eqb c ":") (p ++ ":LABEL") = true.
Proof. rewrite existsb_append. simpl. apply orb_true_r. Qed.

Lemma existsb_substring (p : ascii -> bool) (n m : nat) (s : string) :
  PyStr.existsb p (substring n m s) = true -> PyStr.existsb p s = true.
Proof.
  revert n m. induction s as [|c s IH]; intros n m.
  - destruct n, m; simpl; auto.
  - destruct n as [|n]; simpl.
    + destruct m as [|m]; simpl; [discriminate|].
      rewrite !orb_true_iff. intros [H|H]; [now left | right; eauto].
    + intros H. apply orb_true_iff. right. eauto.
Qed.

(** A name without a colon does not end in [:LABEL]. *)
Lemma endswith_needs_colon (x : string) :
  PyStr.existsb (fun c => Ascii.eqb c ":") x = false ->
  PyStr.endswith ":LABEL" x = false.
Proof.
  intros Hx. destruct (PyStr.endswith ":LABEL" x) eqn:E; [|reflexivity].
  unfold PyStr.endswith in E. apply andb_true_iff in E as [_ Heq].
  apply String.eqb_eq in Heq.
  assert (H : PyStr.existsb (fun c => Ascii.eqb c ":")
                (substring (String.length x - String.length ":LABEL")
                           (String.length ":LABEL") x) = true)
    by now rewrite Heq.
  apply existsb_substring in H. congruence.
Qed.

(** ** Control form to device form: every outcome *)

Lemma index_from_end_second {A : Type} (l : list A) (x d : A) :
  l <> [] -> PyStr.index_from_end (l ++ [x])%list 2 = Some (List.last l d).
Proof.
  intros Hl. unfold PyStr.index_from_end.
  rewrite rev_app_distr. simpl.
  exact (index_from_end_last l d Hl).
Qed.

(** The block name that the [:LABEL] branch takes from [pre:LABEL] is
    the final segment of [pre]. *)
Lemma label_block_name (pre : string) :
  PyStr.index_from_end (PyStr.split ":" (pre ++ ":LABEL")) 2
  = Some (final_segment pre).
Proof.
  change (pre ++ ":LABEL") with (pre ++ String ":" "LABEL").
  rewrite split_app_separator. simpl (PyStr.split ":" "LABEL").
  apply index_from_end_second. apply split_not_nil.
Qed.

(** The local [record_name] of the [:LABEL] branch, in closed form. *)
Lemma label_record_name_closed (pre : string) :
  label_record_name (pre ++ ":LABEL") =
  match PyStr.last_char (final_segment pre) with
  | None => Raise (IndexError "string index out of range")
  | Some c =>
      Ok ("*METADATA.LABEL_" ++ final_segment pre
          ++ (if PyStr.isdigit c then "" else "1"))
  end.
Proof.
  unfold label_record_name. rewrite label_block_name.
  destruct (PyStr.last_char (final_segment pre)) as [c|]; [|reflexivity].
  destruct (PyStr.isdigit c); simpl; [|reflexivity].
  f_equal. f_equal. clear. induction (final_segment pre); simpl; congruence.
Qed.

Lemma last_char_none (s : string) :
  PyStr.last_char s = None <-> s = EmptyString.
Proof.
  split; [|intros ->; reflexivity].
  induction s as [|c s IH]; [reflexivity|].
  simpl. destruct s; [discriminate|]. intros H. specialize (IH H). discriminate.
Qed.

Lemma last_char_append (s : string) (c : ascii) :
  PyStr.last_char (s ++ String c EmptyString) = Some c.
Proof.
  induction s as [|c' s IH]; [reflexivity|].
  simpl. rewrite IH. destruct (s ++ String c ""); [discriminate | reflexivity].
Qed.

Lemma last_char_after (s t : string) :
  t <> EmptyString -> PyStr.last_char (s ++ t) = PyStr.last_char t.
Proof.
  intros Ht. induction s as [|c s IH]; [reflexivity|].
  simpl. rewrite IH. destruct (s ++ t) eqn:E; [|reflexivity].
  destruct s; simpl in E; [congruence | discriminate].
Qed.

(** The metadata record name computed, in the local [record_name], for
    [pre:LABEL] with an ASCII block name: the final segment of [pre] is
    the block name, ["1"] is appended unless it ends in a digit, and an
    empty block name raises [IndexError]; a record name that is computed
    always ends in a digit, the instance number of the block. *)
Theorem label_record_name_of_block (pre : string) :
  PyStr.forallb PyStr.isascii (final_segment pre) = true ->
  label_record_name (pre ++ ":LABEL") =
  match PyStr.last_char (final_segment pre) with
  | None => Raise (IndexError "string index out of range")
  | Some c =>
      Ok ("*METADATA.LABEL_" ++ final_segment pre
          ++ (if PyStr.isdigit c then "" else "1"))
  end
  /\ (forall r, label_record_name (pre ++ ":LABEL") = Ok r ->
        exists c, PyStr.last_char r = Some c /\ PyStr.isdigit c = true).
Proof.
  intros _. split; [apply label_record_name_closed|].
  intros r. rewrite label_record_name_closed.
  destruct (PyStr.last_char (final_segment pre)) as [c|] eqn:Ec;
    [|discriminate].
  intros [= <-].
  assert (Hne : forall t, final_segment pre ++ t <> EmptyString).
  { intros t. destruct (final_segment pre); discriminate. }
  destruct (PyStr.isdigit c) eqn:Ed.
  - exists c. split; [|exact Ed].
    change (PyStr.last_char
              ("*METADATA.LABEL_" ++ (final_segment pre ++ "")) = Some c).
    rewrite last_char_after by apply Hne.
    replace (final_segment pre ++ "") with (final_segment pre); [exact Ec|].
    clear. induction (final_segment pre); simpl; congruence.
  - exists "1"%char. split; [|reflexivity].
    change (PyStr.last_char
              ("*METADATA.LABEL_" ++ (final_segment pre ++ "1"))
            = Some "1"%char).
    rewrite last_char_after by apply Hne.
    apply last_char_append.
Qed.

Lemma label_record_name_of_block_witness :
  label_record_name "TEST-PREFIX:SEQ:LABEL" = Ok "*METADATA.LABEL_SEQ1"
  /\ exists c, PyStr.last_char "*METADATA.LABEL_SEQ1" = Some c
               /\ PyStr.isdigit c = true.
Proof.
  destruct (label_record_name_of_block "TEST-PREFIX:SEQ" eq_refl)
    as [H1 H2].
  split; [exact H1|]. apply H2. exact H1.
Defined.

Lemma split_append_plain (sep : ascii) (s t : string) :
  PyStr.existsb (fun c => Ascii.eqb c sep) t = false ->
  PyStr.split sep (s ++ t)
  = (removelast (PyStr.split sep s)
     ++ [(List.last (PyStr.split sep s) EmptyString ++ t)%string])%list.
Proof.
  intros Ht. induction s as [|c s IH].
  - simpl. now apply split_without_separator.
  - pose proof (split_not_nil sep s) as Hne.
    simpl. rewrite IH. destruct (Ascii.eqb c sep).
    + destruct (PyStr.split sep s) as [|w ws]; [congruence | reflexivity].
    + destruct (PyStr.split sep s) as [|w [|w' ws]]; [congruence | |];
        reflexivity.
Qed.

Lemma final_segment_append_plain (s t : string) :
  PyStr.existsb (fun c => Ascii.eqb c ":") t = false ->
  final_segment (s ++ t) = final_segment s ++ t.
Proof.
  intros Ht. unfold final_segment.
  rewrite (split_append_plain _ _ _ Ht). apply last_last.
Qed.

Lemma append_assoc (s t u : string) : (s ++ t) ++ u = s ++ (t ++ u).
Proof. induction s as [|c s IH]; simpl; [reflexivity | now rewrite IH]. Qed.

(** A block without an instance number stands for its first instance:
    when the block name ends in an ASCII character that is not a digit,
    [BLOCK:LABEL] and [BLOCK1:LABEL] give the same metadata record name
    in the local [record_name]. *)
Theorem label_record_name_first_instance (pre : string) (c : ascii) :
  PyStr.last_char (final_segment pre) = Some c ->
  PyStr.isascii c = true ->
  PyStr.isdigit c = false ->
  label_record_name (pre ++ ":LABEL")
  = label_record_name ((pre ++ "1") ++ ":LABEL").
Proof.
  intros Hc _ Hd. rewrite !label_record_name_closed.
  rewrite (final_segment_append_plain pre "1") by reflexivity.
  rewrite Hc, Hd, last_char_append. simpl (if PyStr.isdigit "1" then _ else _).
  f_equal. f_equal. rewrite append_assoc. reflexivity.
Qed.

Lemma label_record_name_first_instance_witness :
  label_record_name "TEST-PREFIX:PCAP:LABEL"
  = label_record_name "TEST-PREFIX:PCAP1:LABEL".
Proof.
  exact (label_record_name_first_instance "TEST-PREFIX:PCAP" "P"
           eq_refl eq_refl eq_refl).
Defined.

(** What the validator does with [pre:LABEL]. *)
Lemma label_name_outcome (pre : string) :
  PandAName_validator (VEpicsName (pre ++ ":LABEL")) =
  if String.eqb (final_segment pre) ""
  then Raise (IndexError "string index out of range")
  else Ok (PyStr.replace ":" "." pre ++ ".LABEL").
Proof.
  unfold PandAName_validator.
  rewrite endswith_append, label_record_name_closed.
  destruct (final_segment pre) as [|c s] eqn:E; [reflexivity|].
  destruct (PyStr.last_char (String c s)) as [c'|] eqn:El.
  - simpl. unfold PyStr.replace. now rewrite map_append.
  - apply last_char_none in El. discriminate.
Qed.

(** For a control-form name [pre:LABEL] the validator raises
    [IndexError] when the segment before [:LABEL] is empty; otherwise
    the call runs to its end and evaluates to [None], having assigned
    the dot-joined name to [cls.name]. *)
Theorem label_name_conversion (pre : string) :
  (final_segment pre = "" ->
   PandAName_validator_call (VEpicsName (pre ++ ":LABEL"))
   = Raise (IndexError "string index out of range"))
  /\ (final_segment pre <> "" ->
      PandAName_validator_call (VEpicsName (pre ++ ":LABEL")) = Ok RNone
      /\ PandAName_validator (VEpicsName (pre ++ ":LABEL"))
         = Ok (PyStr.replace ":" "." pre ++ ".LABEL")).
Proof.
  unfold PandAName_validator_call. rewrite label_name_outcome.
  destruct (String.eqb_spec (final_segment pre) "") as [E|E].
  - split; [reflexivity | congruence].
  - split; [congruence | split; reflexivity].
Qed.

Lemma label_name_conversion_witness :
  PandAName_validator_call (VEpicsName "TEST-PREFIX::LABEL")
  = Raise (IndexError "string index out of range")
  /\ PandAName_validator_call (VEpicsName "TEST-PREFIX:PCAP1:LABEL") = Ok RNone
  /\ PandAName_validator (VEpicsName "TEST-PREFIX:PCAP1:LABEL")
     = Ok "TEST-PREFIX.PCAP1.LABEL".
Proof.
  split.
  - apply (label_name_conversion "TEST-PREFIX:"). reflexivity.
  - apply (label_name_conversion "TEST-PREFIX:PCAP1"). discriminate.
Defined.

(** The conversion to device form raises [ValueError] exactly for the
    control-form names that hold no colon. *)
Theorem device_form_needs_colon (x : string) :
  PandAName_validator (VEpicsName x)
  = Raise (ValueError "not enough values to unpack (expected 2, got 1)")
  <-> PyStr.existsb (fun c => Ascii.eqb c ":") x = false.
Proof.
  split.
  - intros H.
    destruct (PyStr.existsb (fun c => Ascii.eqb c ":") x) eqn:Hc;
      [exfalso | reflexivity].
    unfold PandAName_validator in H.
    destruct (PyStr.endswith ":LABEL" x) eqn:El.
    + unfold label_record_name in H.
      destruct (PyStr.index_from_end _ 2) as [b|]; [|discriminate].
      destruct (PyStr.last_char b); discriminate.
    + unfold prefix_stripped_record_name in H.
      destruct (split1_with_separator _ _ Hc) as [a [b E]].
      rewrite E in H. discriminate.
  - intros Hc. apply control_without_colon_raises; [exact Hc|].
    now apply endswith_needs_colon.
Qed.

Lemma device_form_needs_colon_witness :
  PandAName_validator (VEpicsName "TIME1")
  = Raise (ValueError "not enough values to unpack (expected 2, got 1)").
Proof. apply (device_form_needs_colon "TIME1"). reflexivity. Defined.

(** ** Display form: what it keeps and what it loses *)

Section CharacterCases.

Ltac by_cases c := destruct c as [[] [] [] [] [] [] [] []]; vm_compute; intuition congruence.

Lemma isalnum_upper_eq (c : ascii) :
  PyStr.isalnum (PyStr.upper c) = PyStr.isalnum c.
Proof. by_cases c. Qed.

Lemma isalnum_lower_eq (c : ascii) :
  PyStr.isalnum (PyStr.lower c) = PyStr.isalnum c.
Proof. by_cases c. Qed.

Lemma separator_not_alnum (c : ascii) :
  is_separator c = true -> PyStr.isalnum c = false.
Proof. by_cases c. Qed.

Lemma upper_upper (c : ascii) : PyStr.upper (PyStr.upper c) = PyStr.upper c.
Proof. by_cases c. Qed.

Lemma lower_upper (c : ascii) : PyStr.lower (PyStr.upper c) = PyStr.lower c.
Proof. by_cases c. Qed.

Lemma upper_lower (c : ascii) : PyStr.upper (PyStr.lower c) = PyStr.upper c.
Proof. by_cases c. Qed.

Lemma lower_lower (c : ascii) : PyStr.lower (PyStr.lower c) = PyStr.lower c.
Proof. by_cases c. Qed.

Lemma upper_keeps_dividers (c : ascii) :
  Ascii.eqb (PyStr.upper c) ":" = Ascii.eqb c ":"
  /\ is_separator (PyStr.upper c) = is_separator c.
Proof. by_cases c. Qed.

Lemma lower_keeps_dividers (c : ascii) :
  Ascii.eqb (PyStr.lower c) ":" = Ascii.eqb c ":"
  /\ is_separator (PyStr.lower c) = is_separator c.
Proof. by_cases c. Qed.

Lemma isalnum_control_char (c : ascii) :
  PyStr.isalnum c = true -> control_char c = true /\ Ascii.eqb c ":" = false.
Proof. by_cases c. Qed.

End CharacterCases.

Lemma existsb_map_string (p : ascii -> bool) (f : ascii -> ascii) (s : string) :
  (forall c, p (f c) = p c) ->
  PyStr.existsb p (PyStr.map f s) = PyStr.existsb p s.
Proof.
  intros Hf. induction s as [|c s IH]; simpl; [reflexivity|].
  now rewrite Hf, IH.
Qed.

Lemma capitalize_keeps_alnum (w : string) :
  PyStr.existsb PyStr.isalnum (PyStr.capitalize w)
  = PyStr.existsb PyStr.isalnum w.
Proof.
  destruct w as [|c w]; [reflexivity|]. simpl.
  rewrite isalnum_upper_eq. f_equal.
  apply existsb_map_string. apply isalnum_lower_eq.
Qed.

Lemma join_existsb (p : ascii -> bool) (ws : list string) :
  PyStr.existsb p (PyStr.join ws) = List.existsb (PyStr.existsb p) ws.
Proof.
  induction ws as [|w ws IH]; simpl; [reflexivity|].
  now rewrite existsb_append, IH.
Qed.

Lemma split_words_not_nil (s : string) : split_words s <> [].
Proof.
  destruct s as [|c s]; simpl; [discriminate|].
  destruct (is_separator c); [discriminate|].
  destruct (split_words s); discriminate.
Qed.

Lemma split_words_keep_alnum (s : string) :
  List.existsb (PyStr.existsb PyStr.isalnum) (split_words s)
  = PyStr.existsb PyStr.isalnum s.
Proof.
  induction s as [|c s IH]; [reflexivity|]. simpl.
  destruct (is_separator c) eqn:E.
  - simpl. rewrite IH. now rewrite (separator_not_alnum c E).
  - pose proof (split_words_not_nil s) as Hne.
    destruct (split_words s) as [|w ws]; [congruence|].
    simpl in *. rewrite <- IH. now rewrite orb_assoc.
Qed.

(** The capitalized and joined words hold an alphanumeric character
    exactly when the segment does. *)
Lemma joined_words_keep_alnum (s : string) :
  PyStr.existsb PyStr.isalnum
    (PyStr.join (List.map PyStr.capitalize (split_words s)))
  = PyStr.existsb PyStr.isalnum s.
Proof.
  rewrite join_existsb, <- split_words_keep_alnum.
  induction (split_words s) as [|w ws IH]; simpl; [reflexivity|].
  now rewrite capitalize_keeps_alnum, IH.
Qed.

Lemma take_while_forallb (p : ascii -> bool) (s : string) :
  PyStr.forallb p (PyStr.take_while p s) = true.
Proof.
  induction s as [|c s IH]; simpl; [reflexivity|].
  destruct (p c) eqn:E; simpl; [now rewrite E, IH | reflexivity].
Qed.

(** The search finds a match exactly when the string holds an
    alphanumeric character, and a match is a non-empty alphanumeric
    string. *)
Lemma re_search_alnum_found (s : string) :
  match PyStr.re_search_alnum s with
  | Some r =>
      PyStr.existsb PyStr.isalnum s = true
      /\ r <> EmptyString /\ PyStr.forallb PyStr.isalnum r = true
  | None => PyStr.existsb PyStr.isalnum s = false
  end.
Proof.
  induction s as [|c s IH]; simpl; [reflexivity|].
  destruct (PyStr.isalnum c) eqn:E; simpl.
  - split; [reflexivity|]. split; [discriminate|].
    now rewrite E, take_while_forallb.
  - destruct (PyStr.re_search_alnum s); tauto.
Qed.

(** On an ASCII control name the validator raises its [AssertionError]
    exactly when the final segment of the name holds no alphanumeric
    character. *)
Theorem display_form_assertion_iff (name : string) :
  PyStr.forallb PyStr.isascii name = true ->
  PviName_validator (VEpicsName name) = Raise (AssertionError "")
  <-> PyStr.existsb PyStr.isalnum (final_segment name) = false.
Proof.
  intros _. rewrite PviName_validator_unfold.
  rewrite <- (joined_words_keep_alnum (final_segment name)).
  pose proof (re_search_alnum_found
                (PyStr.join (List.map PyStr.capitalize
                               (split_words (final_segment name))))) as H.
  destruct (PyStr.re_search_alnum _).
  - destruct H as [H _]. rewrite H. split; discriminate.
  - rewrite H. split; reflexivity.
Qed.

Lemma display_form_assertion_iff_witness :
  PviName_validator (VEpicsName "TEST-PREFIX:SEQ1:-_")
  = Raise (AssertionError "").
Proof.
  apply (display_form_assertion_iff "TEST-PREFIX:SEQ1:-_"); reflexivity.
Defined.

(** Whenever the validator call on an ASCII control name runs to its
    end, evaluating to [None], the name it has assigned to [cls.name] is
    non-empty and alphanumeric. *)
Theorem display_form_is_alphanumeric (name : string) :
  PyStr.forallb PyStr.isascii name = true ->
  PviName_validator_call (VEpicsName name) = Ok RNone ->
  exists d, PviName_validator (VEpicsName name) = Ok d
            /\ PyStr.forallb PyStr.isalnum d = true
            /\ d <> EmptyString.
Proof.
  intros _. unfold PviName_validator_call.
  rewrite PviName_validator_unfold.
  pose proof (re_search_alnum_found
                (PyStr.join (List.map PyStr.capitalize
                               (split_words (final_segment name))))) as H.
  destruct (PyStr.re_search_alnum _) as [r|]; [|discriminate].
  intros _. destruct H as [_ [Hne Hal]]. exists r. auto.
Qed.

Lemma display_form_is_alphanumeric_witness :
  exists d, PviName_validator (VEpicsName "PCAP:bits_table-2") = Ok d
            /\ PyStr.forallb PyStr.isalnum d = true
            /\ d <> EmptyString.
Proof.
  apply (display_form_is_alphanumeric "PCAP:bits_table-2"); reflexivity.
Defined.

(** The display form depends on the final segment only: the segments
    before the last colon are discarded. *)
Theorem display_form_ignores_prefix (p s : string) :
  PyStr.existsb (fun c => Ascii.eqb c ":") s = false ->
  PviName_validator (VEpicsName (p ++ String ":" s))
  = PviName_validator (VEpicsName s).
Proof.
  intros Hs. rewrite !PviName_validator_unfold.
  now rewrite (final_segment_app p s Hs), (final_segment_without_colon s Hs).
Qed.

Lemma display_form_ignores_prefix_witness :
  PviName_validator (VEpicsName "TEST-PREFIX:SEQ1:TABLE")
  = PviName_validator (VEpicsName "TABLE").
Proof.
  apply (display_form_ignores_prefix "TEST-PREFIX:SEQ1" "TABLE"). reflexivity.
Defined.

Lemma split_words_map (f : ascii -> ascii) (s : string) :
  (forall c, is_separator (f c) = is_separator c) ->
  split_words (PyStr.map f s) = List.map (PyStr.map f) (split_words s).
Proof.
  intros Hf. induction s as [|c s IH]; simpl; [reflexivity|].
  rewrite Hf, IH. destruct (is_separator c); [reflexivity|].
  pose proof (split_words_not_nil s) as Hne.
  destruct (split_words s); [congruence | reflexivity].
Qed.

Lemma split_words_swap_separator (a b : ascii) (s : string) :
  is_separator a = true -> is_separator b = true ->
  split_words (PyStr.replace a b s) = split_words s.
Proof.
  intros Ha Hb. unfold PyStr.replace.
  induction s as [|c s IH]; simpl; [reflexivity|]. rewrite IH.
  destruct (Ascii.eqb_spec c a) as [->|Hne]; [now rewrite Ha, Hb | reflexivity].
Qed.

Lemma final_segment_replace (a b : ascii) (name : string) :
  Ascii.eqb a ":" = false -> Ascii.eqb b ":" = false ->
  final_segment (PyStr.replace a b name) = PyStr.replace a b (final_segment name).
Proof.
  intros Ha Hb. unfold PyStr.replace. apply final_segment_map.
  intros c. destruct (Ascii.eqb_spec c a) as [->|Hne]; [|reflexivity].
  now rewrite Ha, Hb.
Qed.

(** The display form does not tell hyphens from underscores. *)
Theorem display_form_ignores_separator_kind (name : string) :
  PviName_validator (VEpicsName (PyStr.replace "-" "_" name))
  = PviName_validator (VEpicsName name)
  /\ PviName_validator (VEpicsName (PyStr.replace "_" "-" name))
     = PviName_validator (VEpicsName name).
Proof.
  rewrite !PviName_validator_unfold.
  rewrite !final_segment_replace by reflexivity.
  now rewrite !split_words_swap_separator by reflexivity.
Qed.

Lemma capitalize_map_upper (w : string) :
  PyStr.capitalize (PyStr.map PyStr.upper w) = PyStr.capitalize w.
Proof.
  destruct w as [|c w]; [reflexivity|]. simpl. rewrite upper_upper. f_equal.
  induction w as [|c' w IH]; simpl; [reflexivity|].
  now rewrite lower_upper, IH.
Qed.

Lemma capitalize_map_lower (w : string) :
  PyStr.capitalize (PyStr.map PyStr.lower w) = PyStr.capitalize w.
Proof.
  destruct w as [|c w]; [reflexivity|]. simpl. rewrite upper_lower. f_equal.
  induction w as [|c' w IH]; simpl; [reflexivity|].
  now rewrite lower_lower, IH.
Qed.

(** The outcome of the validator does not depend on the case of an
    ASCII control name: the upper-cased and the lower-cased name have
    the outcome of the name. *)
Theorem display_form_ignores_case (name : string) :
  PyStr.forallb PyStr.isascii name = true ->
  PviName_validator (VEpicsName (PyStr.map PyStr.upper name))
  = PviName_validator (VEpicsName name)
  /\ PviName_validator (VEpicsName (PyStr.map PyStr.lower name))
     = PviName_validator (VEpicsName name).
Proof.
  intros _. rewrite !PviName_validator_unfold.
  rewrite !final_segment_map
    by (intros c; first [apply upper_keeps_dividers | apply lower_keeps_dividers]).
  rewrite !split_words_map
    by (intros c; first [apply upper_keeps_dividers | apply lower_keeps_dividers]).
  rewrite !map_map.
  rewrite (map_ext _ _ capitalize_map_upper).
  rewrite (map_ext _ _ capitalize_map_lower).
  split; reflexivity.
Qed.

Lemma display_form_ignores_case_witness :
  PviName_validator (VEpicsName "TEST-PREFIX:SEQ1:TABLE")
  = PviName_validator (VEpicsName "test-prefix:seq1:table").
Proof.
  destruct (display_form_ignores_case "TEST-PREFIX:SEQ1:TABLE" eq_refl)
    as [_ H].
  symmetry. exact H.
Defined.

(** * Further properties of the record helpers *)

Lemma prefix_short (n : nat) (s : string) :
  (String.length s <= n)%nat -> PyStr.prefix n s = s.
Proof.
  unfold PyStr.prefix. revert n.
  induction s as [|c s IH]; intros n Hn; [now destruct n|].
  destruct n as [|n]; simpl in *; [lia|]. rewrite IH by lia. reflexivity.
Qed.

Lemma prefix_length_le (n : nat) (s : string) :
  (String.length (PyStr.prefix n s) <= n)%nat.
Proof.
  destruct (Nat.le_gt_cases n (String.length s)) as [H|H].
  - destruct (prefix_spec n s H) as [-> _]. lia.
  - rewrite prefix_short by lia. lia.
Qed.

Lemma trim_string_value_short (value record_name : string) :
  (String.length value <= 39)%nat ->
  trim_string_value value record_name = (value, []).
Proof.
  intros H. unfold trim_string_value.
  destruct (Nat.ltb_spec 39 (String.length value)); [lia | reflexivity].
Qed.

Lemma trim_string_value_length (value record_name : string) :
  (String.length (fst (trim_string_value value record_name)) <= 39)%nat.
Proof.
  unfold trim_string_value.
  destruct (Nat.ltb_spec 39 (String.length value)); simpl;
    [apply prefix_length_le | lia].
Qed.

Lemma trim_description_short (d record_name : string) :
  (String.length d <= 39)%nat ->
  trim_description (Some d) record_name = (Some d, []).
Proof.
  intros H. unfold trim_description.
  destruct (Nat.ltb_spec 39 (String.length d)); [lia|].
  now rewrite andb_false_r.
Qed.

Lemma trim_description_value (d record_name : string) :
  fst (trim_description (Some d) record_name)
  = Some (fst (trim_string_value d record_name)).
Proof.
  unfold trim_description, trim_string_value, truthy.
  destruct (Nat.ltb_spec 39 (String.length d)) as [Hlong|Hshort].
  - destruct d as [|c d]; [simpl in Hlong; lia | reflexivity].
  - now rewrite andb_false_r.
Qed.

(** What [trim_string_value] returns is at most 39 characters long, and
    trimming it again returns it unchanged and logs nothing. *)
Theorem trim_string_value_idempotent (value record_name record_name' : string) :
  (String.length (fst (trim_string_value value record_name)) <= 39)%nat
  /\ trim_string_value (fst (trim_string_value value record_name)) record_name'
     = (fst (trim_string_value value record_name), []).
Proof.
  pose proof (trim_string_value_length value record_name) as H.
  split; [exact H|]. now apply trim_string_value_short.
Qed.

(** [trim_string_value] logs exactly when it changes the value. *)
Theorem trim_string_value_logs_iff_cut (value record_name : string) :
  snd (trim_string_value value record_name) = []
  <-> fst (trim_string_value value record_name) = value.
Proof.
  unfold trim_string_value.
  destruct (Nat.ltb_spec 39 (String.length value)) as [Hlong|Hshort]; simpl.
  - split; [discriminate|]. intros E.
    pose proof (prefix_length_le 39 value) as Hl. rewrite E in Hl. lia.
  - tauto.
Qed.

Lemma trim_string_value_logs_iff_cut_witness :
  snd (trim_string_value "PcapMetadataLabel" "PCAP1:LABEL") = [].
Proof.
  apply (trim_string_value_logs_iff_cut "PcapMetadataLabel" "PCAP1:LABEL").
  reflexivity.
Defined.

(** On a description that is given, [trim_description] returns what
    [trim_string_value] returns and logs as often, at info severity
    where [trim_string_value] logs at error severity. *)
Theorem trim_description_as_trim_string_value (d record_name : string) :
  fst (trim_description (Some d) record_name)
  = Some (fst (trim_string_value d record_name))
  /\ List.map fst (snd (trim_description (Some d) record_name))
     = List.map (fun _ => INFO) (snd (trim_string_value d record_name))
  /\ List.map fst (snd (trim_string_value d record_name))
     = List.map (fun _ => ERROR) (snd (trim_description (Some d) record_name)).
Proof.
  unfold trim_description, trim_string_value, truthy.
  destruct (Nat.ltb_spec 39 (String.length d)) as [Hlong|Hshort].
  - destruct d as [|c d]; [simpl in Hlong; lia|]. simpl.
    repeat split.
  - rewrite andb_false_r. repeat split.
Qed.

(** [trim_description] returns [None] for [None] only, a description of
    at most 39 characters otherwise, and trimming its result again
    returns it unchanged and logs nothing. *)
Theorem trim_description_idempotent
    (description : option string) (record_name record_name' : string) :
  match fst (trim_description description record_name) with
  | None => description = None
  | Some t => description <> None /\ (String.length t <= 39)%nat
  end
  /\ trim_description (fst (trim_description description record_name))
       record_name'
     = (fst (trim_description description record_name), []).
Proof.
  destruct description as [d|]; [|split; reflexivity].
  rewrite trim_description_value.
  pose proof (trim_string_value_length d record_name) as Hlen.
  split; [split; [discriminate | exact Hlen]|].
  now apply trim_description_short.
Qed.

(** * Further properties of [RecordInfo] *)

Lemma check_kwargs_ok (npos : nat) (kwargs : list (string * pyval)) :
  is_ok (check_kwargs npos kwargs) = true
  <-> forall k v, In (k, v) kwargs ->
        exists i, position k init_params 0 = Some i /\ (npos <= i)%nat.
Proof.
  induction kwargs as [|[k v] rest IH]; cbn [check_kwargs].
  - split; [intros _ k v [] | reflexivity].
  - destruct (position k init_params 0) as [i|] eqn:Ep.
    + destruct (Nat.ltb_spec i npos) as [Hlt|Hge].
      * split; [discriminate|]. intros H.
        destruct (H k v (or_introl eq_refl)) as [j [Ej Hj]].
        rewrite Ep in Ej. injection Ej as <-. lia.
      * rewrite IH. split.
        -- intros H k' v' [E|Hin]; [|now apply (H k' v')].
           injection E as <- <-. now exists i.
        -- intros H k' v' Hin. apply (H k' v'). now right.
    + split; [discriminate|]. intros H.
      destruct (H k v (or_introl eq_refl)) as [j [Ej _]].
      rewrite Ep in Ej. discriminate.
Qed.

Lemma bind_param_default (args : list pyval) (kwargs : list (string * pyval))
    (i : nat) (k : string) (d : pyval) :
  exists v, bind_param args kwargs i (k, Some d) = Ok v.
Proof.
  unfold bind_param. cbn [fst snd].
  destruct (nth_error args i); [eauto|].
  destruct (lookup k kwargs); eauto.
Qed.

Lemma bind_param_required (args : list pyval) (kwargs : list (string * pyval))
    (k : string) :
  is_ok (bind_param args kwargs 0 (k, None)) = true
  <-> args <> [] \/ lookup k kwargs <> None.
Proof.
  unfold bind_param. cbn [fst snd].
  destruct args as [|a args]; cbn [nth_error].
  - destruct (lookup k kwargs); cbn.
    + split; [intros _; right; discriminate | reflexivity].
    + split; [discriminate | intros [H|H]; congruence].
  - cbn. split; [intros _; left; discriminate | reflexivity].
Qed.

(** A call of the constructor returns an instance exactly when it has
    at most four positional arguments, every keyword names a parameter
    that no positional argument fills, and [data_type_func] is given,
    positionally or by keyword. *)
Theorem RecordInfo_init_returns_iff
    (args : list pyval) (kwargs : list (string * pyval)) :
  is_ok (RecordInfo_init args kwargs) = true
  <-> (List.length args <= 4)%nat
      /\ (forall k v, In (k, v) kwargs ->
            exists i, position k init_params 0 = Some i
                      /\ (List.length args <= i)%nat)
      /\ (args <> [] \/ lookup "data_type_func" kwargs <> None).
Proof.
  unfold RecordInfo_init. change (List.length init_params) with 4%nat.
  destruct (Nat.ltb_spec 4 (List.length args)) as [Hmany|Hfew].
  - split; [discriminate | intros [H _]; lia].
  - rewrite <- check_kwargs_ok, <- bind_param_required.
    destruct (check_kwargs (List.length args) kwargs) as [[]|e];
      [|split; [discriminate | intros [_ [H _]]; discriminate]].
    cbn [bind].
    destruct (bind_param_default args kwargs 1 "labels" PNone) as [l ->].
    destruct (bind_param_default args kwargs 2 "is_in_record" (PBool true))
      as [i ->].
    destruct (bind_param_default args kwargs 3 "on_changes_func" PNone)
      as [o ->].
    destruct (bind_param args kwargs 0 ("data_type_func", None)); cbn.
    + tauto.
    + split; [discriminate | tauto].
Qed.

Lemma RecordInfo_init_returns_iff_witness :
  is_ok (RecordInfo_init [] [("is_in_record", PBool false);
                             ("data_type_func", PCallable 0)]) = true.
Proof.
  apply RecordInfo_init_returns_iff. split; [simpl; lia|]. split.
  - intros k v [E|[E|[]]]; injection E as <- <-;
      [exists 2%nat | exists 0%nat]; split; (reflexivity || (simpl; lia)).
  - right. discriminate.
Defined.

(** An instance that the constructor returns has no record; after
    [add_record] it has the record given, the last one when called
    twice, and its other fields are as the constructor set them. *)
Theorem RecordInfo_record_lifecycle
    (args : list pyval) (kwargs : list (string * pyval)) (self : RecordInfo)
    (r r' : pyval) :
  RecordInfo_init args kwargs = Ok self ->
  record self = None
  /\ record (add_record self r) = Some r
  /\ add_record (add_record self r) r' = add_record self r'
  /\ _pending_change (add_record self r) = PBool false
  /\ _field_info (add_record self r) = PNone
  /\ data_type_func (add_record self r) = data_type_func self
  /\ labels (add_record self r) = labels self
  /\ is_in_record (add_record self r) = is_in_record self
  /\ on_changes_func (add_record self r) = on_changes_func self.
Proof.
  unfold RecordInfo_init.
  destruct (_ <? _)%nat; [discriminate|].
  destruct (check_kwargs _ _); [|discriminate]. cbn [bind].
  destruct (bind_param args kwargs 0 _); [|discriminate]. cbn [bind].
  destruct (bind_param args kwargs 1 _); [|discriminate]. cbn [bind].
  destruct (bind_param args kwargs 2 _); [|discriminate]. cbn [bind].
  destruct (bind_param args kwargs 3 _); [|discriminate]. cbn [bind].
  intros [= <-]. repeat split.
Qed.

Lemma RecordInfo_record_lifecycle_witness :
  exists self,
    RecordInfo_init [PCallable 0] [("labels", PLabels ["A"; "B"])] = Ok self
    /\ record self = None
    /\ record (add_record self (PRecordWrapper 1)) = Some (PRecordWrapper 1).
Proof.
  eexists. split; [reflexivity|].
  destruct (RecordInfo_record_lifecycle
              [PCallable 0] [("labels", PLabels ["A"; "B"])] _
              (PRecordWrapper 1) (PRecordWrapper 2) eq_refl)
    as [H1 [H2 _]].
  split; [exact H1 | exact H2].
Defined.

(** * Properties of the dummy server *)

Section DummyServerFacts.

Import DummyServer.

Variable decode : string -> result string.

Lemma dict_get_del_same (k : string) (d : list (string * string)) :
  dict_get k (dict_del k d) = None.
Proof.
  unfold dict_del. induction d as [|[k' v] d IH]; simpl; [reflexivity|].
  destruct (String.eqb k k') eqn:E; simpl; [exact IH|]. now rewrite E.
Qed.

Lemma dict_get_del_other (k k' : string) (d : list (string * string)) :
  k' <> k -> dict_get k' (dict_del k d) = dict_get k' d.
Proof.
  intros Hne. unfold dict_del.
  induction d as [|[k0 v] d IH]; simpl; [reflexivity|].
  destruct (String.eqb_spec k k0) as [->|Hk]; simpl.
  - destruct (String.eqb_spec k' k0); [congruence | exact IH].
  - now rewrite IH.
Qed.

Lemma opens_multiline_not_blank (line : string) :
  opens_multiline line = true -> line <> EmptyString.
Proof. intros H ->. discriminate. Qed.



(** The reply to a line outside a multi-line command. *)
Lemma handle_line_single (st : state) (line d : string) :
  is_multiline st = false -> opens_multiline line = false ->
  decode line = Ok d ->
  dict_get d (expected_message_responses st) = None ->
  handle_line decode st line
  = Ok ({| received := (received st ++ [d])%list;
           send := snd (popleft_or_dot (send st));
           expected_message_responses := expected_message_responses st;
           is_multiline := false |},
        [to_send (fst (popleft_or_dot (send st)))]).
Proof.
  intros Hm Ho Hd Hk. unfold handle_line. rewrite Hd. cbn [bind].
  now rewrite Hk, Ho, Hm.
Qed.

(** Outside multi-line commands, and with no expected message among
    the lines, every line gets one reply: the replies are the items of
    the send queue in order, then ["."] for every line past the end of
    the queue; the items sent are removed from the queue. *)
Theorem replies_from_queue (lines : list string) (st : state) :
  is_multiline st = false ->
  (forall l, In l lines ->
     opens_multiline l = false
     /\ exists d, decode l = Ok d
                  /\ dict_get d (expected_message_responses st) = None) ->
  exists st',
    handle_lines decode st lines
    = (st',
       (List.map to_send (firstn (List.length lines) (send st))
        ++ repeat (to_send ".")
                  (List.length lines - List.length (send st)))%list,
       None)
    /\ send st' = skipn (List.length lines) (send st)
    /\ is_multiline st' = false
    /\ expected_message_responses st' = expected_message_responses st.
Proof.
  revert st. induction lines as [|line lines IH]; intros st Hm Hl.
  - exists st. simpl. repeat split; auto.
  - destruct (Hl line (or_introl eq_refl)) as [Ho [d [Hd Hk]]].
    simpl handle_lines. rewrite (handle_line_single st line d Hm Ho Hd Hk).
    set (st1 := {| received := _; send := _;
                   expected_message_responses := _; is_multiline := _ |}).
    destruct (IH st1 eq_refl) as [st' [Hrun [Hs [Hm' He]]]].
    { intros l Hin. apply Hl. now right. }
    exists st'. rewrite Hrun. subst st1. simpl in *.
    destruct (send st) as [|data rest]; simpl in *.
    + rewrite firstn_nil, skipn_nil in *. simpl in *.
      rewrite Nat.sub_0_r in *. repeat split; auto.
    + repeat split; auto.
Qed.

(** An expected message, outside a multi-line command, is answered
    with its response at once, ahead of the send queue, which is left as
    it was; the message is then no longer expected, and the other
    expected messages are. *)
Theorem expected_message_answered (st : state) (line d response : string) :
  is_multiline st = false -> opens_multiline line = false ->
  decode line = Ok d ->
  dict_get d (expected_message_responses st) = Some response ->
  exists st',
    handle_line decode st line = Ok (st', [to_send response])
    /\ send st' = send st
    /\ dict_get d (expected_message_responses st') = None
    /\ (forall k, k <> d ->
          dict_get k (expected_message_responses st')
          = dict_get k (expected_message_responses st)).
Proof.
  intros Hm Ho Hd Hk. unfold handle_line. rewrite Hd. cbn [bind].
  rewrite Hk, Ho, Hm. simpl. eexists. split; [reflexivity|]. simpl.
  split; [reflexivity|]. split; [apply dict_get_del_same|].
  intros k Hne. now apply dict_get_del_other.
Qed.

(** Inside a multi-line command a line that is not blank gets no
    reply. *)
Lemma handle_line_inside (st st' : state) (line : string)
    (written : list string) :
  is_multiline st = true \/ opens_multiline line = true ->
  line <> EmptyString ->
  handle_line decode st line = Ok (st', written) ->
  written = [] /\ is_multiline st' = true.
Proof.
  intros Hm Hne. unfold handle_line.
  destruct (decode line) as [d|]; [|discriminate]. cbn [bind].
  assert (E : (if opens_multiline line then true else is_multiline st) = true).
  { destruct Hm as [->| ->]; [now destruct (opens_multiline line) | reflexivity]. }
  rewrite E. destruct (String.eqb_spec line ""); [congruence|].
  simpl. intros [= <- <-]. auto.
Qed.

Lemma handle_lines_inside (body : list string) (st st' : state)
    (written : list string) :
  is_multiline st = true ->
  (forall l, In l body -> l <> EmptyString) ->
  handle_lines decode st body = (st', written, None) ->
  written = [] /\ is_multiline st' = true.
Proof.
  revert st. induction body as [|line body IH]; intros st Hm Hb; simpl.
  - intros [= <- <-]. auto.
  - destruct (handle_line decode st line) as [[st1 w1]|] eqn:E1;
      [|discriminate].
    destruct (handle_lines decode st1 body) as [[st2 w2] e2] eqn:E2.
    intros [= <- <- ->].
    destruct (handle_line_inside st st1 line w1 (or_introl Hm)
                (Hb line (or_introl eq_refl)) E1) as [-> Hm1].
    apply (IH st1 Hm1); [|exact E2]. intros l Hin. apply Hb. now right.
Qed.

Lemma handle_lines_app (l1 l2 : list string) (st : state) :
  handle_lines decode st (l1 ++ l2)%list =
  match handle_lines decode st l1 with
  | (st1, w1, None) =>
      let '(st2, w2, e) := handle_lines decode st1 l2 in
      (st2, (w1 ++ w2)%list, e)
  | r => r
  end.
Proof.
  revert st. induction l1 as [|line l1 IH]; intros st; simpl.
  - now destruct (handle_lines decode st l2) as [[st2 w2] e].
  - destruct (handle_line decode st line) as [[st1 w1]|]; [|reflexivity].
    rewrite IH.
    destruct (handle_lines decode st1 l1) as [[st2 w2] [e|]]; [reflexivity|].
    destruct (handle_lines decode st2 l2) as [[st3 w3] e'].
    now rewrite app_assoc.
Qed.

(** A multi-line command, a line ending in [<] or [<B] followed by
    lines that are not blank and closed by a blank line, gets no reply
    before the blank line and exactly one reply at it, after which the
    handler is outside a multi-line command again. *)
Theorem multiline_command_one_reply (first : string) (body : list string)
    (st st' : state) (written : list string) :
  opens_multiline first = true ->
  (forall l, In l body -> l <> EmptyString) ->
  handle_lines decode st (first :: body ++ [EmptyString]) = (st', written, None) ->
  (exists st1, handle_lines decode st (first :: body) = (st1, [], None)
               /\ is_multiline st1 = true)
  /\ List.length written = 1%nat
  /\ is_multiline st' = false.
Proof.
  intros Ho Hb.
  change (first :: body ++ [EmptyString])%list
    with ((first :: body) ++ [EmptyString])%list.
  rewrite handle_lines_app.
  destruct (handle_lines decode st (first :: body)) as [[st1 w1] [e|]] eqn:E1;
    [discriminate|].
  assert (Hin : w1 = [] /\ is_multiline st1 = true).
  { simpl in E1.
    destruct (handle_line decode st first) as [[st0 w0]|] eqn:E0;
      [|discriminate].
    destruct (handle_lines decode st0 body) as [[st2 w2] e2] eqn:E2.
    injection E1 as <- <- ->.
    destruct (handle_line_inside st st0 first w0 (or_intror Ho)
                (opens_multiline_not_blank first Ho) E0) as [-> Hm0].
    exact (handle_lines_inside body st0 st2 w2 Hm0 Hb E2). }
  destruct Hin as [-> Hm1].
  simpl handle_lines. unfold handle_line.
  destruct (decode EmptyString) as [d|]; [|discriminate]. cbn [bind].
  change (opens_multiline "") with false. cbv iota.
  rewrite Hm1. simpl. intros [= <- <-].
  split; [exists st1; split; [reflexivity | exact Hm1]|]. split; reflexivity.
Qed.

End DummyServerFacts.


Lemma replies_from_queue_witness :
  exists st',
    DummyServer.handle_lines DummyServer.decode_ascii
      (DummyServer.mkState [] ["OK"; "=1"] [] false)
      ["A=1"; "A?"; "*CHANGES?"]
    = (st', List.map DummyServer.to_send ["OK"; "=1"; "."], None)
    /\ DummyServer.send st' = [].
Proof.
  destruct (replies_from_queue DummyServer.decode_ascii
              ["A=1"; "A?"; "*CHANGES?"]
              (DummyServer.mkState [] ["OK"; "=1"] [] false) eq_refl)
    as [st' [Hrun [Hs _]]].
  - intros l [<-|[<-|[<-|[]]]]; (split; [reflexivity|]);
      eexists; split; reflexivity.
  - exists st'. split; [exact Hrun | exact Hs].
Defined.

Lemma expected_message_answered_witness :
  exists st',
    DummyServer.handle_line DummyServer.decode_ascii
      (DummyServer.mkState [] ["queued"]
         [("SEQ1.TABLE?", "!1"); ("*IDN?", "PandA")] false)
      "*IDN?"
    = Ok (st', [DummyServer.to_send "PandA"])
    /\ DummyServer.send st' = ["queued"].
Proof.
  destruct (expected_message_answered DummyServer.decode_ascii
              (DummyServer.mkState [] ["queued"]
                 [("SEQ1.TABLE?", "!1"); ("*IDN?", "PandA")] false)
              "*IDN?" "*IDN?" "PandA" eq_refl eq_refl eq_refl eq_refl)
    as [st' [H1 [H2 _]]].
  exists st'. split; [exact H1 | exact H2].
Defined.

Lemma multiline_command_one_reply_witness :
  exists st',
    DummyServer.handle_lines DummyServer.decode_ascii
      (DummyServer.mkState [] ["OK"] [] false)
      ["SEQ1.TABLE<"; "2457862149"; "4294967291"; "100"; "0"; ""]
    = (st', [DummyServer.to_send "OK"], None)
    /\ DummyServer.is_multiline st' = false.
Proof.
  destruct (DummyServer.handle_lines DummyServer.decode_ascii
              (DummyServer.mkState [] ["OK"] [] false)
              ["SEQ1.TABLE<"; "2457862149"; "4294967291"; "100"; "0"; ""])
    as [[st' written] e] eqn:E.
  pose proof E as E'. vm_compute in E'. injection E' as _ <- <-.
  exists st'. split; [reflexivity|].
  refine (proj2 (proj2 (multiline_command_one_reply DummyServer.decode_ascii
                          "SEQ1.TABLE<"
                          ["2457862149"; "4294967291"; "100"; "0"]
                          _ st' _ eq_refl _ E))).
  intros l [<-|[<-|[<-|[<-|[]]]]]; discriminate.
Defined.
